(** * Rotated-log range query: [ParseRotatedLog] of [python/cpuTestUtilities.py]

    The Python function walks a base log file and its logrotate
    predecessors ([log.1], [log.2.gz], ...), pushes every file through a
    pipeline of text utilities ([cat]/[gzip -d], [tr], [awk], [grep],
    [head]/[tail]) and parses the surviving lines into entries.

    The embedding keeps the shape of the source: one recursive walker whose
    arguments that change are [rotate] and [limit], a per-file pipeline, and
    the line loop with its [try]/[except] and its limit countdown.  File
    system probes and opens are recorded in an event trace returned next to
    the entries. *)

From Stdlib Require Import ZArith Bool Ascii String List Lia.
From stdpp Require Import base tactics option list strings pretty sorting gmap.
From Equations Require Import Equations.
Import ListNotations.

Local Open Scope string_scope.
Local Open Scope Z_scope.
Local Open Scope list_scope.

(** ** Python string primitives *)

Module Py.

(** Characters removed by [str.strip()] with no argument (Python 2 [str]):
    space, [\t], [\n], [\v], [\f], [\r]. *)
Definition isspace (c : ascii) : bool :=
  let n := N_of_ascii c in
  ((9 <=? n)%N && (n <=? 13)%N) || (n =? 32)%N.

Fixpoint lstrip (s : string) : string :=
  match s with
  | EmptyString => EmptyString
  | String c s' => if isspace c then lstrip s' else s
  end.

Fixpoint rstrip (s : string) : string :=
  match s with
  | EmptyString => EmptyString
  | String c s' =>
      match rstrip s' with
      | EmptyString => if isspace c then EmptyString else String c EmptyString
      | r => String c r
      end
  end.

(** [s.strip()] *)
Definition strip (s : string) : string := lstrip (rstrip s).

(** Cut [s] at the first occurrence of [sep]; [None] when [sep] does not
    occur. *)
Fixpoint cut (sep : ascii) (s : string) : option (string * string) :=
  match s with
  | EmptyString => None
  | String c s' =>
      if Ascii.eqb c sep then Some (EmptyString, s')
      else match cut sep s' with
           | Some (a, b) => Some (String c a, b)
           | None => None
           end
  end.

(** [s.split(',', 1)]: one part when there is no comma, else two. *)
Definition split_comma1 (s : string) : list string :=
  match cut "," s with
  | Some (a, b) => [a; b]
  | None => [s]
  end.

(** Truthiness of an optional string argument: [None] and [''] are false. *)
Definition truthy (o : option string) : bool :=
  match o with
  | Some s => negb (String.eqb s "")
  | None => false
  end.

Definition str_of (o : option string) : string := default "" o.

End Py.

(** The character [c] occurs in [s]. *)
Fixpoint has_char (c : ascii) (s : string) : bool :=
  match s with
  | EmptyString => false
  | String d s' => Ascii.eqb d c || has_char c s'
  end.

(** ** The text utilities of the pipeline

    A stream is the list of its lines (without the newline).  [tr] deletes
    bytes and never a newline, so it acts line by line. *)

Module Coreutils.

(** [tr -d '\000'] on one line. *)
Fixpoint delete_nul (s : string) : string :=
  match s with
  | EmptyString => EmptyString
  | String c s' =>
      if Ascii.eqb c Ascii.zero then delete_nul s' else String c (delete_nul s')
  end.

Definition tr_d_nul (lines : list string) : list string := map delete_nul lines.

(** The last [n] lines. *)
Definition last_n (n : nat) (lines : list string) : list string :=
  drop (length lines - n)%nat lines.

(** [tail -n K]: the last [K] lines; GNU tail reads a leading [-] as no
    sign at all. *)
Definition tail_n (k : Z) (lines : list string) : list string :=
  last_n (Z.to_nat (Z.abs k)) lines.

(** [head -n K]: the first [K] lines; for a negative [K] GNU head prints
    all but the last [-K] lines. *)
Definition head_n (k : Z) (lines : list string) : list string :=
  if 0 <=? k then take (Z.to_nat k) lines
  else take (length lines - Z.to_nat (- k))%nat lines.

(** First field of an awk record under [-F,]: the text before the first
    comma, the whole record when it has none. *)
Definition awk_field1 (line : string) : string :=
  match Py.cut "," line with
  | Some (a, _) => a
  | None => line
  end.

End Coreutils.

(** ** awk's comparison of a field with a [-v] variable

    awk compares [$1] with the variable as numbers when both look like
    numbers, and as strings, byte by byte, otherwise.  The awks differ a
    little in what looks like a number (hexadecimal, [inf], [nan], the
    decimal mark); the definitions below single out the texts on which they
    agree: texts that none of them reads as a number, and short numerals,
    which all of them do. *)

Module Awk.

Fixpoint all_chars (f : ascii -> bool) (s : string) : bool :=
  match s with
  | EmptyString => true
  | String c s' => f c && all_chars f s'
  end.

Fixpoint any_char (f : ascii -> bool) (s : string) : bool :=
  match s with
  | EmptyString => false
  | String c s' => f c || any_char f s'
  end.

Definition is_digit (c : ascii) : bool :=
  let n := N_of_ascii c in (48 <=? n)%N && (n <=? 57)%N.

(** Characters of the texts that some awk reads as a number: blanks,
    digits, signs, the decimal mark, and the letters of exponents, of
    hexadecimal numbers, of [inf], [infinity] and [nan]. *)
Definition number_char (c : ascii) : bool :=
  Py.isspace c || is_digit c || has_char c "+-.,xXpPabcdefABCDEFiInNtTyY".

Definition backslash : ascii := ascii_of_nat 92.

(** A visible ASCII character that occurs in no number and that [-v]
    leaves alone. *)
Definition text_char (c : ascii) : bool :=
  let n := N_of_ascii c in
  (33 <=? n)%N && (n <=? 126)%N && negb (number_char c)
  && negb (Ascii.eqb c backslash).

(** A text that no awk reads as a number and that [-v var=text] assigns
    unchanged ([-v] rewrites backslash sequences). *)
Definition plain_text (s : string) : bool :=
  any_char text_char s && negb (has_char backslash s).

(** A numeral of at most 15 digits: read as a number by every awk, and
    small enough to be held exactly. *)
Definition small_natural (s : string) : bool :=
  (1 <=? String.length s)%nat && (String.length s <=? 15)%nat
  && all_chars is_digit s.

Definition digit_value (c : ascii) : Z := Z.of_N (N_of_ascii c) - 48.

Fixpoint value_from (acc : Z) (s : string) : Z :=
  match s with
  | EmptyString => acc
  | String c s' => value_from (10 * acc + digit_value c) s'
  end.

(** The number a numeral denotes. *)
Definition value (s : string) : Z := value_from 0 s.

(** A comparison that does as awk does on numerals and on text: two small
    numerals by value, everything else byte by byte. *)
Definition compare (a b : string) : comparison :=
  if small_natural a && small_natural b then value a ?= value b
  else String.compare a b.

End Awk.

(** ** Data model *)

(** What the caller-supplied parser can do on one line. *)
Inductive ParseResult (E : Type) : Type :=
| Raised                (* raises an [Exception] *)
| ReturnedNone          (* returns [None] *)
| Returned (e : E).     (* returns an entry *)
Arguments Raised {E}.
Arguments ReturnedNone {E}.
Arguments Returned {E} e.

Definition Parser (E : Type) : Type := string -> string -> ParseResult E.

(** Line 183: [lambda cursor, line: (cursor, line)], used when
    [logparserfn] is [None]. *)
Definition default_logparserfn : Parser (string * string) :=
  fun cursor line => Returned (cursor, line).

(** The keyword arguments that every recursive call passes on unchanged.
    [greps=None] is the empty list ([greps or []]). *)
Record Query : Type := {
  logfile : string;
  maxrotate : Z;
  cursor : option string;
  includecursor : bool;
  endcursor : option string;
  includeendcursor : bool;
  forward : bool;
  greps : list (list string);
  keyword : option string
}.

(** The outside world of one call.  [files p] is [None] when
    [os.path.isfile p] is false, and otherwise the lines that the first
    stage of the pipeline reads from [p]: the text of the file, gunzipped
    when [p] ends in [.gz], as the list of its lines (no line holds a
    newline).  [awk_compare a b] is the outcome of awk
    comparing field [a] with variable [b] (awk compares two numeric-looking
    strings as numbers and everything else as strings); [grep_selects args
    line] tells whether [grep args] prints [line]. *)
Record World : Type := {
  files : string -> option (list string);
  awk_compare : string -> string -> comparison;
  grep_selects : list string -> string -> bool
}.

(** The same utilities over another file system. *)
Definition with_files (w : World) (fs : string -> option (list string)) : World :=
  {| files := fs;
     awk_compare := awk_compare w;
     grep_selects := grep_selects w |}.

Inductive Event : Type :=
| IsFile (path : string)    (* os.path.isfile(path) *)
| Open (path : string).     (* open(path, 'r') and the pipeline on it *)

Definition Outcome (E : Type) : Type := (list Event * list E)%type.

(** ** The engine *)

Section Engine.

Context {E : Type}.
Variable w : World.
Variable q : Query.
Variable logparserfn : Parser E.

(** *** Lines 185-191: the file name of a rotation index *)

(** ['%s.%d' % (logfile, rotate)] *)
Definition rotated_name (rotate : Z) : string :=
  logfile q +:+ "." +:+ pretty rotate.

Definition isfile (path : string) : bool :=
  match files w path with Some _ => true | None => false end.

(** The name chosen for [rotate] and the probes made to choose it. *)
Definition determine_filename (rotate : Z) : list Event * string :=
  if 0 <? rotate then
    let filename := rotated_name rotate in
    if isfile filename then ([IsFile filename], filename)
    else ([IsFile filename], filename +:+ ".gz")
  else ([], logfile q).

(** *** Lines 226-245: the awk program *)

Definition awk_lt (a b : string) : bool :=
  match awk_compare w a b with Lt => true | _ => false end.
Definition awk_le (a b : string) : bool :=
  match awk_compare w a b with Gt => false | _ => true end.
Definition awk_gt (a b : string) : bool :=
  match awk_compare w a b with Gt => true | _ => false end.
Definition awk_ge (a b : string) : bool :=
  match awk_compare w a b with Lt => false | _ => true end.

Definition cursor_condition (f1 : string) : bool :=
  let c := Py.str_of (cursor q) in
  if negb (forward q) then
    if includecursor q then awk_le f1 c else awk_lt f1 c
  else
    if includecursor q then awk_ge f1 c else awk_gt f1 c.

Definition endcursor_condition (f1 : string) : bool :=
  let e := Py.str_of (endcursor q) in
  if negb (forward q) then
    if includeendcursor q then awk_ge f1 e else awk_gt f1 e
  else
    if includeendcursor q then awk_le f1 e else awk_lt f1 e.

(** [' && '.join(conditions)] evaluated on one record. *)
Definition awk_program (line : string) : bool :=
  let f1 := Coreutils.awk_field1 line in
  cursor_condition f1 &&
  (if Py.truthy (endcursor q) then endcursor_condition f1 else true).

(** *** Lines 215-257: the pipeline on one file *)

Definition cursor_stage (s : list string) : list string :=
  if Py.truthy (cursor q) then List.filter awk_program s else s.

Definition grep_stage (s : list string) : list string :=
  fold_left (fun s args => List.filter (grep_selects w args) s) (greps q) s.

Definition keyword_stage (s : list string) : list string :=
  if Py.truthy (keyword q)
  then List.filter (grep_selects w ["-Fi"; Py.str_of (keyword q)]) s
  else s.

Definition limit_stage (limit : option Z) (s : list string) : list string :=
  match limit with
  | None => s
  | Some n =>
      if negb (forward q) then Coreutils.tail_n n s else Coreutils.head_n n s
  end.

Definition pipeline (content : list string) (limit : option Z) : list string :=
  limit_stage limit
    (keyword_stage (grep_stage (cursor_stage (Coreutils.tr_d_nul content)))).

(** [communicate()[0].split('\n')]: every line ends with a newline, so the
    split leaves one empty string at the end. *)
Definition output_lines (out : list string) : list string := out ++ [""].

(** *** Lines 265-282: the loop over the lines *)

(** The [try] block on a stripped, non-empty line; [None] is [entry is
    None], whether the parser returned [None] or an exception was caught
    ([parts[1]] raises [IndexError] on a line with no comma). *)
Definition try_parse (line : string) : option E :=
  let parts := Py.split_comma1 line in
  match parts !! 0%nat, parts !! 1%nat with
  | Some p0, Some p1 =>
      match logparserfn (Py.strip p0) (Py.strip p1) with
      | Returned e => Some e
      | ReturnedNone => None
      | Raised => None
      end
  | _, _ => None
  end.

(** One turn of the loop body up to [entry]: [None] also for a line the
    loop skips ([len(line) == 0]). *)
Definition entry_of_line (line : string) : option E :=
  let line := Py.strip line in
  if (String.length line =? 0)%nat then None else try_parse line.

(** The loop; returns [entries] and [limit] as they are when it ends. *)
Fixpoint collect (lines : list string) (limit : option Z) (entries : list E)
  : list E * option Z :=
  match lines with
  | [] => (entries, limit)
  | line :: rest =>
      match entry_of_line line with
      | None => collect rest limit entries
      | Some entry =>
          let entries := entries ++ [entry] in
          match limit with
          | None => collect rest None entries
          | Some n =>
              let n := n - 1 in
              if n <=? 0 then (entries, Some n)
              else collect rest (Some n) entries
          end
      end
  end.

(** Lines 215-282 on a file that exists. *)
Definition read_file (content : list string) (limit : option Z)
  : list E * option Z :=
  collect (rev (output_lines (pipeline content limit))) limit [].

(** *** Lines 178-304: the walk over the rotation indices *)

Definition next_rotate (rotate : Z) : Z :=
  if forward q then rotate - 1 else rotate + 1.

(** Line 285: [limit is None or limit > 0]. *)
Definition limit_open (limit : option Z) : bool :=
  match limit with None => true | Some n => 0 <? n end.

Definition out_of_range (rotate : Z) : bool :=
  (rotate <? 0) || (maxrotate q <? rotate).

(** Number of indices still ahead of [rotate] in the walking direction. *)
Definition indices_left (rotate : Z) : nat :=
  if out_of_range rotate then 0%nat
  else if forward q then Z.to_nat (rotate + 1)
  else Z.to_nat (maxrotate q - rotate + 1).

Definition in_range_dec (rotate : Z) :
  {out_of_range rotate = true} + {out_of_range rotate = false} :=
  match out_of_range rotate as b return {b = true} + {b = false} with
  | true => left eq_refl
  | false => right eq_refl
  end.

Equations? walk (rotate : Z) (limit : option Z) : Outcome E
  by wf (indices_left rotate) lt :=
  walk rotate limit with in_range_dec rotate := {
    | left _ => ([], []);
    | right Hin =>
        let '(probes, filename) := determine_filename rotate in
        match files w filename with
        | None =>
            if negb (forward q) && (0 <? rotate)
            then (probes ++ [IsFile filename], [])
            else
              let '(io, rotatedlog) := walk (next_rotate rotate) limit in
              (probes ++ IsFile filename :: io, rotatedlog)
        | Some content =>
            let '(entries, limit) := read_file content limit in
            if limit_open limit then
              let '(io, rotatedlog) := walk (next_rotate rotate) limit in
              (probes ++ IsFile filename :: Open filename :: io,
               if forward q then rotatedlog ++ entries
               else entries ++ rotatedlog)
            else (probes ++ [IsFile filename; Open filename], entries)
        end }.
Proof.
  all: unfold indices_left, next_rotate; rewrite Hin.
  all: unfold out_of_range in *.
  all: apply orb_false_iff in Hin as [H0 Hmax].
  all: apply Z.ltb_ge in H0, Hmax.
  all: destruct (forward q).
  all: repeat match goal with
              | |- context [?a <? ?b] => destruct (Z.ltb_spec a b)
              end; simpl; lia.
Qed.

(** Lines 171-177: the index the walk starts from. *)
Definition first_rotate (rotate : option Z) : Z :=
  match rotate with
  | Some r => r
  | None => if forward q then maxrotate q else 0
  end.

Definition ParseRotatedLog (rotate : option Z) (limit : option Z) : Outcome E :=
  walk (first_rotate rotate) limit.

(** *** Views of the log set used to state properties *)

(** The content of the file the walk opens at [rotate], if there is one. *)
Definition located (rotate : Z) : option (list string) :=
  files w (determine_filename rotate).2.

(** A line passes the three filter stages. *)
Definition selects (line : string) : bool :=
  (if Py.truthy (cursor q) then awk_program line else true)
  && forallb (fun args => grep_selects w args line) (greps q)
  && (if Py.truthy (keyword q)
      then grep_selects w ["-Fi"; Py.str_of (keyword q)] line
      else true).

(** Entries the loop yields for the file at [rotate] when no limit
    applies: filtered lines, last line first. *)
Definition file_entries (rotate : Z) : list E :=
  match located rotate with
  | Some content => (read_file content None).1
  | None => []
  end.

(** What the loop appends out of the entries [es] its lines yield: all of
    them without a limit, else as many as the countdown lets through
    (the test comes after the append, so never fewer than one). *)
Definition taken (limit : option Z) (es : list E) : list E :=
  match limit with
  | None => es
  | Some n => take (Z.to_nat (Z.max 1 n)) es
  end.

(** [limit] after [k] entries were appended. *)
Definition remaining (limit : option Z) (k : nat) : option Z :=
  match limit with
  | None => None
  | Some n => Some (n - Z.of_nat k)
  end.

(** Every line of the file at [rotate] that parses, top to bottom. *)
Definition parsed_file (rotate : Z) : list E :=
  match located rotate with
  | Some content => omap entry_of_line (Coreutils.tr_d_nul content)
  | None => []
  end.

(** The whole log set in writing order: oldest rotation first, each file
    top to bottom. *)
Definition history : list E :=
  flat_map parsed_file (rev (seqZ 0 (maxrotate q + 1))).

(** The part of the log set that a walk standing at [rotate] has not
    passed yet, latest entry first. *)
Definition ahead (rotate : Z) : list E :=
  flat_map (fun r => rev (parsed_file r))
    (if forward q then seqZ 0 (rotate + 1)
     else seqZ rotate (maxrotate q + 1 - rotate)).

(** No rotation index in range is present behind a missing one. *)
Definition contiguous : Prop :=
  forall r r' : Z,
    0 < r -> r <= r' -> r' <= maxrotate q ->
    located r = None -> located r' = None.

(** Every line that survives the filters of a file in range yields an
    entry. *)
Definition all_lines_parse : Prop :=
  forall (r : Z) (content : list string) (line : string),
    out_of_range r = false ->
    located r = Some content ->
    In line (pipeline content None) ->
    is_Some (entry_of_line line).

End Engine.

(** ** The properties in the words of the specification *)

(** The comparisons of the filter table, on awk's comparison. *)
Definition tok_lt (w : World) (a b : string) : Prop := awk_compare w a b = Lt.
Definition tok_le (w : World) (a b : string) : Prop := awk_compare w a b <> Gt.
Definition tok_gt (w : World) (a b : string) : Prop := awk_compare w a b = Gt.
Definition tok_ge (w : World) (a b : string) : Prop := awk_compare w a b <> Lt.

(** One cell of the comparator table: the cursor column. *)
Definition cursor_bound (w : World) (q : Query) (token : string) : Prop :=
  let c := Py.str_of (cursor q) in
  if forward q
  then (if includecursor q then tok_ge w token c else tok_gt w token c)
  else (if includecursor q then tok_le w token c else tok_lt w token c).

(** One cell of the comparator table: the endCursor column. *)
Definition endcursor_bound (w : World) (q : Query) (token : string) : Prop :=
  let e := Py.str_of (endcursor q) in
  if forward q
  then (if includeendcursor q then tok_le w token e else tok_lt w token e)
  else (if includeendcursor q then tok_ge w token e else tok_gt w token e).

(** The QueryWindow bounds: each bound that is present constrains its own
    side, whether or not the other one is present. *)
Definition within_window (w : World) (q : Query) (token : string) : Prop :=
  (Py.truthy (cursor q) = true -> cursor_bound w q token) /\
  (Py.truthy (endcursor q) = true -> endcursor_bound w q token).

(** The paths a backward walk looks at before it reaches index [gap]: the
    live file and both variants of every rotation below [gap]. *)
Definition before_gap (q : Query) (gap : Z) (path : string) : Prop :=
  path = logfile q \/
  exists r : Z, 0 < r < gap /\
    (path = rotated_name q r \/ path = rotated_name q r +:+ ".gz").

(** [endCursor] lies before [cursor] in the query direction. *)
Definition misordered (w : World) (q : Query) : Prop :=
  Py.truthy (cursor q) = true /\ Py.truthy (endcursor q) = true /\
  let c := Py.str_of (cursor q) in
  let e := Py.str_of (endcursor q) in
  if forward q then awk_compare w e c = Lt else awk_compare w e c = Gt.

(** A comparison that behaves as a total preorder.  The byte order of
    strings does; awk's comparison, which mixes it with the order of
    numbers, does not. *)
Definition consistent_order (cmp : string -> string -> comparison) : Prop :=
  (forall a b, cmp b a = CompOpp (cmp a b)) /\
  (forall a b c, cmp a b <> Gt -> cmp b c <> Gt -> cmp a c <> Gt).

(** What the properties that depend on awk's comparison assume of it: a
    bound that is plain text is compared with the field byte by byte, and
    two small numerals are compared by value. *)
Definition awk_like (cmp : string -> string -> comparison) : Prop :=
  (forall field bound : string,
      Awk.plain_text bound = true ->
      cmp field bound = String.compare field bound) /\
  (forall field bound : string,
      Awk.small_natural field = true ->
      Awk.small_natural bound = true ->
      cmp field bound = (Awk.value field ?= Awk.value bound)).

(** The same world with another comparison in the place of awk's. *)
Definition with_compare (w : World) (cmp : string -> string -> comparison)
  : World :=
  {| files := files w;
     awk_compare := cmp;
     grep_selects := grep_selects w |}.

(** The order of cursors in the words of the specification: tokens are
    compared as strings, byte by byte. *)
Definition lexicographic (w : World) : World := with_compare w String.compare.

(** Tokens compared by the numbers they denote. *)
Definition numeric (w : World) : World :=
  with_compare w (fun a b => Awk.value a ?= Awk.value b).

(** The bounds that are present are plain text, as the timestamps are that
    the docstring of [ParseRotatedLog] names. *)
Definition textual_bounds (q : Query) : Prop :=
  Awk.plain_text (Py.str_of (cursor q)) = true /\
  (Py.truthy (endcursor q) = true ->
   Awk.plain_text (Py.str_of (endcursor q)) = true).

(** The bounds that are present are small numerals. *)
Definition numeric_bounds (q : Query) : Prop :=
  Awk.small_natural (Py.str_of (cursor q)) = true /\
  (Py.truthy (endcursor q) = true ->
   Awk.small_natural (Py.str_of (endcursor q)) = true).

(** A line that the loop cannot turn into an entry: it has no comma, or
    the parser raises on its two parts. *)
Definition malformed {E : Type} (p : Parser E) (line : string) : Prop :=
  Py.cut "," line = None \/
  exists a b : string,
    Py.cut "," line = Some (a, b) /\ p (Py.strip a) (Py.strip b) = Raised.

(** The file system in which the file at [path] reads [content]. *)
Definition write_file (fs : string -> option (list string))
  (path : string) (content : list string) : string -> option (list string) :=
  fun p => if String.eqb p path then Some content else fs p.

(** The index at which a walk that starts at [start] finds its first file:
    the indices it visits before are missing, and none of them ends the
    walk (a backward walk ends at a missing index above 0). *)
Definition first_found (w : World) (q : Query) (start r : Z) : Prop :=
  out_of_range q start = false /\
  out_of_range q r = false /\
  is_Some (located w q r) /\
  if forward q
  then r <= start /\ forall r', r < r' <= start -> located w q r' = None
  else start <= r /\
       forall r', start <= r' < r -> located w q r' = None /\ r' <= 0.

(** The query with the two cursors, their inclusivity flags and the
    direction exchanged. *)
Definition mirror (q : Query) : Query :=
  {| logfile := logfile q;
     maxrotate := maxrotate q;
     cursor := endcursor q;
     includecursor := includeendcursor q;
     endcursor := cursor q;
     includeendcursor := includecursor q;
     forward := negb (forward q);
     greps := greps q;
     keyword := keyword q |}.

(** A returned sequence read in the direction of the query: a forward query
    reads time upwards, a backward query downwards; the list itself is
    returned latest entry first. *)
Definition in_direction {E : Type} (q : Query) (entries : list E) : list E :=
  if forward q then rev entries else entries.

(** Entries of the default parser compared by their token, in the byte
    order of strings. *)
Definition token_le (e1 e2 : string * string) : Prop :=
  String.compare e1.1 e2.1 <> Gt.

(** Tokens in non-decreasing order (oldest-cursor-first) under the byte
    order of strings. *)
Definition oldest_first (tokens : list string) : Prop :=
  StronglySorted (fun a b => String.compare a b <> Gt) tokens.

(** ** Sample log sets *)

Module Sample.

(** A world whose awk compares strings byte by byte and whose grep keeps
    every line. *)
Definition world (fs : string -> option (list string)) : World :=
  {| files := fs;
     awk_compare := String.compare;
     grep_selects := fun _ _ => true |}.

(** A world whose awk compares small numerals by value and everything else
    byte by byte, and whose grep keeps every line. *)
Definition awk_world (fs : string -> option (list string)) : World :=
  {| files := fs;
     awk_compare := Awk.compare;
     grep_selects := fun _ _ => true |}.

Definition query (fwd : bool) (c e : option string) (maxrot : Z) : Query :=
  {| logfile := "log"; maxrotate := maxrot;
     cursor := c; includecursor := true;
     endcursor := e; includeendcursor := true;
     forward := fwd; greps := []; keyword := None |}.

(** Only the live file. *)
Definition live_only (content : list string) : string -> option (list string) :=
  fun p => if String.eqb p "log" then Some content else None.

(** Live file and one gzipped rotation. *)
Definition live_and_gz (live old : list string) : string -> option (list string) :=
  fun p =>
    if String.eqb p "log" then Some live
    else if String.eqb p "log.1.gz" then Some old
    else None.

(** Live, [.1] and [.3] present, [.2] missing. *)
Definition gap_at_2 (l0 l1 l3 : list string) : string -> option (list string) :=
  fun p =>
    if String.eqb p "log" then Some l0
    else if String.eqb p "log.1" then Some l1
    else if String.eqb p "log.3" then Some l3
    else None.

Definition four_lines : list string :=
  ["2024-01-01T00:00:01,A"; "2024-01-01T00:00:02,B";
   "2024-01-01T00:00:03,C"; "2024-01-01T00:00:04,D"].

Definition five_lines : list string :=
  ["2024-01-01T00:00:05,E"; "2024-01-01T00:00:06,F";
   "2024-01-01T00:00:07,G"; "2024-01-01T00:00:08,H";
   "2024-01-01T00:00:09,I"].

(** A parser that answers [None] on the token [skip] and raises on the
    token [boom]. *)
Definition skipping_parser : Parser (string * string) :=
  fun cursor line =>
    if String.eqb cursor "skip" then ReturnedNone
    else if String.eqb cursor "boom" then Raised
    else Returned (cursor, line).

End Sample.


(** ** The caller of the query

    [motionControllerDataCollection.py] (line 213) fetches the latest order
    cycle:
    [ParseRotatedLog(logFile, logparserfn=lambda cursor, line: (cursor,
    ujson.loads(line)), limit=1)[0][1]]. *)

(** The keyword arguments of that call: every default of the signature. *)
Definition order_cycle_query (logFile : string) : Query :=
  {| logfile := logFile;
     maxrotate := 9;
     cursor := None;
     includecursor := false;
     endcursor := None;
     includeendcursor := false;
     forward := false;
     greps := [];
     keyword := None |}.

(** The lambda of the call; [loads] is [ujson.loads], [None] when it raises
    on text that is no JSON. *)
Definition order_cycle_parser {J : Type} (loads : string -> option J)
  : Parser (string * J) :=
  fun cursor line =>
    match loads line with
    | Some value => Returned (cursor, value)
    | None => Raised
    end.

(** The whole expression; [None] is the [IndexError] of [[0]] on an empty
    result. *)
Definition latest_order_cycle {J : Type}
  (w : World) (logFile : string) (loads : string -> option J) : option J :=
  match (ParseRotatedLog w (order_cycle_query logFile)
           (order_cycle_parser loads) None (Some 1)).2 with
  | [] => None
  | entry :: _ => Some entry.2
  end.

(** ** Views of the text and of the trace used to state properties *)

(** Number of files a trace opens. *)
Definition opens (io : list Event) : nat :=
  length (List.filter (fun ev => match ev with Open _ => true | IsFile _ => false end) io).

(** ** The start/stop handshake: [SyncTestWithControllerClient] and
    [SyncTestWithControllerServer]

    A JSON message is a dictionary; the values the code looks at are
    strings. *)

Inductive json : Type :=
| JString (s : string)
| JNumber (n : Z)
| JNull.

#[global] Instance json_eq_dec : EqDecision json.
Proof. solve_decision. Defined.

(** What a piece of code that indexes a dictionary comes to. *)
Inductive outcome (A : Type) : Type :=
| Done (a : A)
| KeyError (key : string).
Arguments Done {A} a.
Arguments KeyError {A} key.

(** [message[key]] *)
Definition item (message : gmap string json) (key : string) : outcome json :=
  match message !! key with
  | Some v => Done v
  | None => KeyError key
  end.

(** Lines 44-48: the request of [StartControllerDataCollection] and of
    [StopControllerDataCollection]; [pid] is [str(os.getpid())]. *)
Definition request (command pid : string) : gmap string json :=
  <["command" := JString command]> (<["id" := JString pid]> ∅).

(** Lines 30-42, [_SendReceive]: [received] is the reply when the poll saw
    one within the timeout.  The right operand of [and] is evaluated only
    when the commands are equal. *)
Definition SendReceive (data : gmap string json)
  (received : option (gmap string json)) : outcome bool :=
  match received with
  | None => Done false
  | Some message =>
      match item message "command" with
      | KeyError k => KeyError k
      | Done mc =>
          match item data "command" with
          | KeyError k => KeyError k
          | Done dc =>
              if bool_decide (mc = dc) then
                match item message "id" with
                | KeyError k => KeyError k
                | Done mi =>
                    match item data "id" with
                    | KeyError k => KeyError k
                    | Done di => Done (bool_decide (mi = di))
                    end
                end
              else Done false
          end
      end
  end.

(** What the server thread does with one received message. *)
Record Handled : Type := {
  should_run : bool;                 (* _shouldRunControllerDataCollection *)
  reply : gmap string json;          (* the message sent back *)
  forwarded : list string            (* calls on _syncControllerClient *)
}.

(** Lines 79-114, the body of the loop of [_RunThread] on a message.
    [sync] is [None] when [_syncControllerClient is None], else the value
    its [StartControllerDataCollection()] returns when called; [running] is
    the flag before the message. *)
Definition handle (sync : option bool) (running : bool)
  (message : gmap string json) : outcome Handled :=
  match item message "command" with
  | KeyError k => KeyError k
  | Done command =>
      if bool_decide (command = JString "Start") then
        match sync with
        | None =>
            Done {| should_run := true; reply := message; forwarded := [] |}
        | Some serverState =>
            Done {| should_run := serverState;
                    reply := if serverState then message
                             else <["command" := JString "FAILURE"]> message;
                    forwarded := ["Start"] |}
        end
      else if bool_decide (command = JString "Stop") then
        Done {| should_run := false;
                reply := message;
                forwarded := match sync with None => [] | Some _ => ["Stop"] end |}
      else
        Done {| should_run := running; reply := message; forwarded := [] |}
  end.

(** The flag after the server thread has handled the messages of [inbox]
    one after the other; each message comes with the value the start call
    on the sync client would return for it.  An uncaught [KeyError] ends
    the thread, and the flag stays as it was. *)
Fixpoint serve (has_sync : bool) (running : bool)
  (inbox : list (gmap string json * bool)) : bool :=
  match inbox with
  | [] => running
  | (message, answer) :: rest =>
      match handle (if has_sync then Some answer else None) running message with
      | KeyError _ => running
      | Done h => serve has_sync (should_run h) rest
      end
  end.

(** * Facts *)

(** ** Stripping and cutting *)

Module PyFacts.
Import Py.

Lemma lstrip_idemp s : lstrip (lstrip s) = lstrip s.
Proof.
  induction s as [|c s IH]; simpl; [reflexivity|].
  destruct (isspace c) eqn:Hc; [exact IH|].
  simpl. rewrite Hc. reflexivity.
Qed.

Lemma rstrip_cons c s :
  rstrip (String c s) =
  if (String.length (rstrip s) =? 0)%nat
  then (if isspace c then "" else String c "")
  else String c (rstrip s).
Proof. simpl. destruct (rstrip s); reflexivity. Qed.

Lemma rstrip_idemp s : rstrip (rstrip s) = rstrip s.
Proof.
  induction s as [|c s IH]; [reflexivity|].
  rewrite rstrip_cons.
  destruct (rstrip s) as [|d r] eqn:Hr; simpl.
  - destruct (isspace c) eqn:Hc; simpl; [reflexivity|]. rewrite Hc. reflexivity.
  - simpl in IH. rewrite IH. reflexivity.
Qed.

Lemma lstrip_rstrip s : lstrip (rstrip s) = rstrip (lstrip s).
Proof.
  induction s as [|c s IH]; [reflexivity|].
  rewrite rstrip_cons. simpl lstrip at 2.
  destruct (isspace c) eqn:Hc.
  - rewrite <- IH.
    destruct (rstrip s) as [|d r]; simpl; [reflexivity|].
    rewrite Hc. reflexivity.
  - rewrite rstrip_cons.
    destruct (rstrip s) as [|d r]; simpl; rewrite Hc; reflexivity.
Qed.

Lemma strip_lstrip s : strip (lstrip s) = strip s.
Proof. unfold strip. rewrite <- lstrip_rstrip, lstrip_idemp. reflexivity. Qed.

Lemma strip_rstrip s : strip (rstrip s) = strip s.
Proof. unfold strip. rewrite rstrip_idemp. reflexivity. Qed.

Lemma cut_lstrip sep s a b :
  isspace sep = false ->
  cut sep s = Some (a, b) -> cut sep (lstrip s) = Some (lstrip a, b).
Proof.
  intros Hsep. revert a.
  induction s as [|c s IH]; intros a; simpl; [discriminate|].
  destruct (Ascii.eqb c sep) eqn:Hc.
  - apply Ascii.eqb_eq in Hc as ->. intros [= <- <-].
    rewrite Hsep. simpl. rewrite Ascii.eqb_refl. reflexivity.
  - destruct (cut sep s) as [[a0 b0]|] eqn:Hcut; [|discriminate].
    intros [= <- <-]. simpl.
    destruct (isspace c); [apply IH; reflexivity|].
    simpl. rewrite Hc, Hcut. reflexivity.
Qed.

Lemma cut_rstrip sep s a b :
  isspace sep = false ->
  cut sep s = Some (a, b) -> cut sep (rstrip s) = Some (a, rstrip b).
Proof.
  intros Hsep. revert a.
  induction s as [|c s IH]; intros a; [discriminate|].
  rewrite rstrip_cons. simpl cut at 1.
  destruct (Ascii.eqb c sep) eqn:Hc.
  - apply Ascii.eqb_eq in Hc as ->. intros [= <- <-].
    rewrite Hsep.
    destruct (rstrip s); simpl; rewrite Ascii.eqb_refl; reflexivity.
  - destruct (cut sep s) as [[a0 b0]|] eqn:Hcut; [|discriminate].
    intros [= <- <-].
    specialize (IH _ eq_refl).
    destruct (rstrip s); [discriminate|].
    simpl Nat.eqb. cbv iota. simpl cut. rewrite Hc.
    simpl in IH. rewrite IH. reflexivity.
Qed.

Lemma cut_lstrip_None sep s : cut sep s = None -> cut sep (lstrip s) = None.
Proof.
  induction s as [|c s IH]; simpl; [reflexivity|].
  destruct (Ascii.eqb c sep) eqn:Hc; [discriminate|].
  destruct (cut sep s) as [[a0 b0]|] eqn:Hcut; [discriminate|].
  intros _. destruct (isspace c); [apply IH; reflexivity|].
  simpl. rewrite Hc, Hcut. reflexivity.
Qed.

Lemma cut_rstrip_None sep s : cut sep s = None -> cut sep (rstrip s) = None.
Proof.
  induction s as [|c s IH]; [reflexivity|].
  rewrite rstrip_cons. simpl cut at 1.
  destruct (Ascii.eqb c sep) eqn:Hc; [discriminate|].
  destruct (cut sep s) as [[a0 b0]|] eqn:Hcut; [discriminate|].
  intros _. specialize (IH eq_refl).
  destruct (rstrip s) as [|d r]; simpl.
  - destruct (isspace c); simpl; [reflexivity|]. rewrite Hc. reflexivity.
  - rewrite Hc. simpl in IH. rewrite IH. reflexivity.
Qed.

(** Cutting the stripped line gives the parts of the line up to
    stripping. *)
Lemma cut_strip s a b :
  cut "," s = Some (a, b) ->
  exists a' b',
    cut "," (strip s) = Some (a', b') /\ strip a' = strip a /\ strip b' = strip b.
Proof.
  intros Hcut. exists (lstrip a), (rstrip b). split; [|split].
  - unfold strip. apply cut_lstrip; [reflexivity|].
    apply cut_rstrip; [reflexivity|exact Hcut].
  - apply strip_lstrip.
  - apply strip_rstrip.
Qed.

Lemma cut_strip_None s : cut "," s = None -> cut "," (strip s) = None.
Proof. intros H. unfold strip. apply cut_lstrip_None, cut_rstrip_None, H. Qed.

Lemma cut_delete_nul_None s :
  cut "," s = None -> cut "," (Coreutils.delete_nul s) = None.
Proof.
  induction s as [|c s IH]; simpl; [reflexivity|].
  destruct (Ascii.eqb c ",") eqn:Hc; [discriminate|].
  destruct (cut "," s) as [[a0 b0]|]; [discriminate|].
  intros _. destruct (Ascii.eqb c Ascii.zero); simpl; rewrite ?Hc, IH; reflexivity.
Qed.

End PyFacts.

(** ** Lists *)

Lemma filter_filter_andb {A} (f g : A -> bool) (l : list A) :
  List.filter g (List.filter f l) = List.filter (fun x => f x && g x) l.
Proof.
  induction l as [|x l IH]; simpl; [reflexivity|].
  destruct (f x); simpl; [destruct (g x)|]; rewrite IH; reflexivity.
Qed.

Lemma filter_sublist {A} (f : A -> bool) (l : list A) :
  List.filter f l `sublist_of` l.
Proof.
  induction l as [|x l IH]; simpl; [constructor|].
  destruct (f x); [apply sublist_skip|apply sublist_cons]; exact IH.
Qed.

Lemma omap_sublist {A B} (f : A -> option B) (l k : list A) :
  l `sublist_of` k -> omap f l `sublist_of` omap f k.
Proof.
  induction 1 as [|x l k _ IH|x l k _ IH]; simpl.
  - constructor.
  - destruct (f x); [apply sublist_skip|]; exact IH.
  - destruct (f x); [apply sublist_cons|]; exact IH.
Qed.

Lemma rev_sublist {A} (l k : list A) :
  l `sublist_of` k -> rev l `sublist_of` rev k.
Proof.
  induction 1 as [|x l k _ IH|x l k _ IH]; simpl.
  - constructor.
  - apply sublist_app; [exact IH|reflexivity].
  - apply sublist_inserts_r, IH.
Qed.

Lemma flat_map_rev {A B} (f : A -> list B) (l : list A) :
  rev (flat_map f l) = flat_map (fun x => rev (f x)) (rev l).
Proof.
  induction l as [|x l IH]; simpl; [reflexivity|].
  rewrite rev_app_distr, IH, flat_map_app. simpl.
  rewrite app_nil_r. reflexivity.
Qed.

Lemma StronglySorted_sublist {A} (R : A -> A -> Prop) (l k : list A) :
  l `sublist_of` k -> StronglySorted R k -> StronglySorted R l.
Proof.
  induction 1 as [|x l k Hsub IH|x l k Hsub IH]; intros Hk.
  - constructor.
  - apply StronglySorted_inv in Hk as [Hk Hx].
    constructor; [apply IH, Hk|].
    apply Forall_forall. intros y Hy.
    rewrite Forall_forall in Hx. apply Hx.
    apply (sublist_subseteq _ _ Hsub), Hy.
  - apply StronglySorted_inv in Hk as [Hk _]. apply IH, Hk.
Qed.

Lemma StronglySorted_rev {A} (R : A -> A -> Prop) (l : list A) :
  StronglySorted R l -> StronglySorted (flip R) (rev l).
Proof.
  induction 1 as [|x l Hl IH Hx]; simpl; [constructor|].
  apply StronglySorted_app_2; [|exact IH|repeat constructor].
  intros y z Hy Hz. apply list_elem_of_In in Hy. apply in_rev in Hy.
  apply list_elem_of_singleton in Hz as ->.
  rewrite Forall_forall in Hx. apply Hx, list_elem_of_In, Hy.
Qed.

(** ** The loop and the pipeline *)

Section LoopFacts.

Context {E : Type}.
Variable w : World.
Variable q : Query.
Variable logparserfn : Parser E.

Local Abbreviation eol := (entry_of_line logparserfn).

(** The loop body in terms of the unstripped line: the parser receives the
    stripped text on either side of the first comma. *)
Lemma entry_of_line_cut (line : string) :
  eol line =
  match Py.cut "," line with
  | Some (a, b) =>
      match logparserfn (Py.strip a) (Py.strip b) with
      | Returned e => Some e
      | _ => None
      end
  | None => None
  end.
Proof.
  unfold entry_of_line, try_parse, Py.split_comma1.
  destruct (Py.cut "," line) as [[a b]|] eqn:Hcut.
  - destruct (PyFacts.cut_strip _ _ _ Hcut) as (a' & b' & Hcut' & Ha & Hb).
    rewrite Hcut'.
    destruct (Py.strip line); [discriminate|].
    simpl. rewrite Ha, Hb.
    destruct (logparserfn _ _); reflexivity.
  - rewrite (PyFacts.cut_strip_None _ Hcut).
    destruct (_ =? _)%nat; reflexivity.
Qed.

Lemma entry_of_line_empty : eol "" = None.
Proof. reflexivity. Qed.

Lemma collect_spec (lines : list string) (limit : option Z) (acc : list E) :
  collect logparserfn lines limit acc =
  let es := taken limit (omap eol lines) in
  (acc ++ es, remaining limit (length es)).
Proof.
  revert limit acc.
  induction lines as [|line rest IH]; intros limit acc; simpl.
  - destruct limit as [n|]; simpl; rewrite ?take_nil, app_nil_r; simpl;
      [f_equal; f_equal; lia|reflexivity].
  - destruct (eol line) as [e|]; [|apply IH].
    destruct limit as [n|]; simpl.
    + destruct (Z.leb_spec (n - 1) 0) as [Hle|Hgt].
      * replace (Z.to_nat (Z.max 1 n)) with 1%nat by lia.
        simpl. rewrite take_0. reflexivity.
      * rewrite IH. simpl.
        replace (Z.to_nat (Z.max 1 n)) with (S (Z.to_nat (Z.max 1 (n - 1)))) by lia.
        cbn [taken take length remaining]. rewrite <- app_assoc.
        cbn [app]. change (list_omap _ _ eol rest) with (omap eol rest).
        f_equal. f_equal. lia.
    + rewrite IH. simpl. rewrite <- app_assoc. reflexivity.
Qed.

Lemma grep_stage_filter (s : list string) :
  grep_stage w q s =
  List.filter (fun line => forallb (fun args => grep_selects w args line) (greps q)) s.
Proof.
  unfold grep_stage. revert s.
  induction (greps q) as [|args gs IH]; intros s; simpl.
  - induction s as [|x s IHs]; simpl; congruence.
  - rewrite IH, filter_filter_andb. reflexivity.
Qed.

Lemma pipeline_unlimited (content : list string) :
  pipeline w q content None =
  List.filter (selects w q) (Coreutils.tr_d_nul content).
Proof.
  unfold pipeline, limit_stage, keyword_stage, cursor_stage, selects.
  rewrite grep_stage_filter.
  set (s := Coreutils.tr_d_nul content).
  destruct (Py.truthy (cursor q)), (Py.truthy (keyword q));
    rewrite ?filter_filter_andb; apply filter_ext; intros line;
    rewrite ?andb_true_r, ?andb_assoc; reflexivity.
Qed.

Lemma pipeline_limited (content : list string) (limit : option Z) :
  pipeline w q content limit = limit_stage q limit (pipeline w q content None).
Proof. reflexivity. Qed.

Lemma limit_stage_sublist (limit : option Z) (s : list string) :
  limit_stage q limit s `sublist_of` s.
Proof.
  unfold limit_stage, Coreutils.tail_n, Coreutils.head_n, Coreutils.last_n.
  destruct limit as [n|]; [|reflexivity].
  destruct (negb (forward q)); [apply sublist_drop|].
  destruct (0 <=? n); apply sublist_take.
Qed.

Lemma limit_stage_length (n : Z) (s : list string) :
  0 <= n -> (length (limit_stage q (Some n) s) <= Z.to_nat n)%nat.
Proof.
  intros Hn.
  unfold limit_stage, Coreutils.tail_n, Coreutils.head_n, Coreutils.last_n.
  destruct (negb (forward q)).
  - rewrite length_drop. lia.
  - destruct (Z.leb_spec 0 n); [|lia]. rewrite length_take. lia.
Qed.

(** Every line the loop sees is a line of the file (after [tr]) that the
    filters select. *)
Lemma pipeline_elem (content : list string) (limit : option Z) (line : string) :
  In line (pipeline w q content limit) ->
  In line (Coreutils.tr_d_nul content) /\ selects w q line = true.
Proof.
  rewrite pipeline_limited. intros Hin.
  apply list_elem_of_In in Hin.
  apply (sublist_subseteq _ _ (limit_stage_sublist limit _)) in Hin.
  apply list_elem_of_In in Hin.
  rewrite pipeline_unlimited in Hin.
  apply filter_In in Hin. exact Hin.
Qed.

Lemma omap_rev_output (out : list string) :
  omap eol (rev (output_lines out)) = omap eol (rev out).
Proof. unfold output_lines. rewrite rev_app_distr. reflexivity. Qed.

(** The whole of lines 215-282 on one file. *)
Lemma read_file_spec (content : list string) (limit : option Z) :
  read_file w q logparserfn content limit =
  let es := taken limit (omap eol (rev (pipeline w q content limit))) in
  (es, remaining limit (length es)).
Proof.
  unfold read_file. rewrite collect_spec, omap_rev_output. reflexivity.
Qed.

Lemma taken_sublist (limit : option Z) (es : list E) :
  taken limit es `sublist_of` es.
Proof. destruct limit; simpl; [apply sublist_take|reflexivity]. Qed.

Lemma omap_length_le {A B} (f : A -> option B) (l : list A) :
  (length (omap f l) <= length l)%nat.
Proof.
  induction l as [|x l IH]; simpl; [lia|].
  change (list_omap _ _ f l) with (omap f l).
  destruct (f x); simpl; lia.
Qed.

(** Under a non-negative limit a file contributes at most [limit]
    entries, and the countdown stays non-negative. *)
Lemma read_file_length (content : list string) (n : Z) :
  0 <= n ->
  exists es, read_file w q logparserfn content (Some n) = (es, Some (n - Z.of_nat (length es)))
             /\ Z.of_nat (length es) <= n.
Proof.
  intros Hn. rewrite read_file_spec. cbn zeta.
  eexists. split; [reflexivity|].
  unfold taken. rewrite length_take.
  pose proof (omap_length_le eol (rev (pipeline w q content (Some n)))) as Hle.
  rewrite length_rev in Hle.
  pose proof (limit_stage_length n (pipeline w q content None) Hn) as Hlen.
  rewrite <- pipeline_limited in Hlen.
  lia.
Qed.

End LoopFacts.

(** ** The walk *)

Section WalkFacts.

Context {E : Type}.
Variable w : World.
Variable q : Query.
Variable logparserfn : Parser E.

Local Abbreviation eol := (entry_of_line logparserfn).
Local Abbreviation go := (walk w q logparserfn).

(** The recursive equation of the source function. *)
Lemma walk_step (rotate : Z) (limit : option Z) :
  go rotate limit =
  if out_of_range q rotate then ([], [])
  else
    let '(probes, filename) := determine_filename w q rotate in
    match files w filename with
    | None =>
        if negb (forward q) && (0 <? rotate)
        then (probes ++ [IsFile filename], [])
        else
          let '(io, rotatedlog) := go (next_rotate q rotate) limit in
          (probes ++ IsFile filename :: io, rotatedlog)
    | Some content =>
        let '(entries, limit) := read_file w q logparserfn content limit in
        if limit_open limit then
          let '(io, rotatedlog) := go (next_rotate q rotate) limit in
          (probes ++ IsFile filename :: Open filename :: io,
           if forward q then rotatedlog ++ entries
           else entries ++ rotatedlog)
        else (probes ++ [IsFile filename; Open filename], entries)
    end.
Proof.
  rewrite walk_equation_1. unfold walk_unfold_clause_1.
  destruct (in_range_dec q rotate) as [H|H]; rewrite H; reflexivity.
Qed.

(** The entries alone. *)
Lemma walk_entries (rotate : Z) (limit : option Z) :
  (go rotate limit).2 =
  if out_of_range q rotate then []
  else
    match located w q rotate with
    | None =>
        if negb (forward q) && (0 <? rotate) then []
        else (go (next_rotate q rotate) limit).2
    | Some content =>
        let es := taken limit (omap eol (rev (pipeline w q content limit))) in
        let limit' := remaining limit (length es) in
        if limit_open limit' then
          if forward q then (go (next_rotate q rotate) limit').2 ++ es
          else es ++ (go (next_rotate q rotate) limit').2
        else es
    end.
Proof.
  rewrite walk_step. unfold located.
  destruct (out_of_range q rotate); [reflexivity|].
  destruct (determine_filename w q rotate) as [probes filename]. simpl.
  destruct (files w filename) as [content|].
  - rewrite read_file_spec. cbv beta iota zeta.
    destruct (limit_open _); [|reflexivity].
    destruct (go _ _). destruct (forward q); reflexivity.
  - destruct (negb (forward q) && (0 <? rotate)); [reflexivity|].
    destruct (go _ _). reflexivity.
Qed.

Lemma out_of_range_false (rotate : Z) :
  out_of_range q rotate = false <-> 0 <= rotate <= maxrotate q.
Proof.
  unfold out_of_range.
  rewrite orb_false_iff, !Z.ltb_ge. lia.
Qed.

Lemma indices_left_next (rotate : Z) :
  out_of_range q rotate = false ->
  (indices_left q (next_rotate q rotate) < indices_left q rotate)%nat.
Proof.
  intros Hin. unfold indices_left. rewrite Hin.
  apply out_of_range_false in Hin.
  unfold next_rotate.
  destruct (out_of_range q _) eqn:Hnext; [destruct (forward q); lia|].
  apply out_of_range_false in Hnext.
  destruct (forward q); lia.
Qed.

(** Induction along the walk: a property of every index follows from its
    holding at [rotate] whenever it holds at the index the walk visits
    next. *)
Lemma walk_ind (P : Z -> Prop) :
  (forall rotate,
      (out_of_range q rotate = false -> P (next_rotate q rotate)) -> P rotate) ->
  forall rotate, P rotate.
Proof.
  intros Hstep rotate.
  remember (indices_left q rotate) as n eqn:Hn.
  revert rotate Hn.
  induction n as [n IH] using lt_wf_ind. intros rotate ->.
  apply Hstep. intros Hin.
  apply (IH _ (indices_left_next rotate Hin) _ eq_refl).
Qed.

(** *** Missing files *)

Lemma determine_filename_missing (rotate : Z) :
  0 < rotate ->
  files w (rotated_name q rotate) = None ->
  determine_filename w q rotate =
  ([IsFile (rotated_name q rotate)], rotated_name q rotate +:+ ".gz").
Proof.
  intros Hpos Hplain. unfold determine_filename, isfile.
  destruct (Z.ltb_spec 0 rotate); [|lia]. rewrite Hplain. reflexivity.
Qed.

Lemma walk_backward_missing (rotate : Z) (limit : option Z) :
  forward q = false ->
  0 < rotate <= maxrotate q ->
  files w (rotated_name q rotate) = None ->
  files w (rotated_name q rotate +:+ ".gz") = None ->
  go rotate limit =
  ([IsFile (rotated_name q rotate); IsFile (rotated_name q rotate +:+ ".gz")], []).
Proof.
  intros Hbwd [Hpos Hmax] Hplain Hgz.
  rewrite walk_step.
  replace (out_of_range q rotate) with false
    by (symmetry; apply out_of_range_false; lia).
  rewrite determine_filename_missing by assumption.
  rewrite Hgz, Hbwd. simpl.
  destruct (Z.ltb_spec 0 rotate); [reflexivity|lia].
Qed.

Lemma walk_forward_missing (rotate : Z) (limit : option Z) :
  forward q = true ->
  out_of_range q rotate = false ->
  located w q rotate = None ->
  go rotate limit =
  ((determine_filename w q rotate).1
     ++ IsFile (determine_filename w q rotate).2 :: (go (rotate - 1) limit).1,
   (go (rotate - 1) limit).2).
Proof.
  intros Hfwd Hin Hnone.
  rewrite walk_step, Hin. unfold located in Hnone.
  destruct (determine_filename w q rotate) as [probes filename]. simpl in *.
  rewrite Hnone, Hfwd. simpl. unfold next_rotate. rewrite Hfwd.
  destruct (go (rotate - 1) limit). reflexivity.
Qed.

End WalkFacts.

(** * The claims *)

(** ** Missing rotations (C4) *)

Section MissingRotation.

Context {E : Type}.
Variable w : World.
Variable fs' : string -> option (list string).
Variable q : Query.
Variable logparserfn : Parser E.
Variable gap : Z.

Hypothesis Hbackward : forward q = false.
Hypothesis Hgap : 0 < gap <= maxrotate q.
Hypothesis Hagree : forall path, before_gap q gap path -> fs' path = files w path.
Hypothesis Hmissing :
  files w (rotated_name q gap) = None /\
  files w (rotated_name q gap +:+ ".gz") = None.
Hypothesis Hmissing' :
  fs' (rotated_name q gap) = None /\
  fs' (rotated_name q gap +:+ ".gz") = None.

Lemma determine_filename_agree (rotate : Z) :
  0 <= rotate < gap ->
  determine_filename (with_files w fs') q rotate = determine_filename w q rotate
  /\ files (with_files w fs') (determine_filename w q rotate).2
     = files w (determine_filename w q rotate).2.
Proof.
  intros Hr. unfold determine_filename, isfile. simpl.
  destruct (Z.ltb_spec 0 rotate) as [Hpos|Hzero].
  - assert (Hplain : fs' (rotated_name q rotate) = files w (rotated_name q rotate)).
    { apply Hagree. right. exists rotate. split; [lia|left; reflexivity]. }
    assert (Hgz : fs' (rotated_name q rotate +:+ ".gz")
                  = files w (rotated_name q rotate +:+ ".gz")).
    { apply Hagree. right. exists rotate. split; [lia|right; reflexivity]. }
    rewrite Hplain.
    destruct (files w (rotated_name q rotate)) eqn:Hw; simpl; split; congruence.
  - simpl. split; [reflexivity|]. apply Hagree. left. reflexivity.
Qed.

(** Up to the gap the walk behaves alike in both log sets. *)
Lemma walk_agree_to_gap (rotate : Z) :
  0 <= rotate <= gap ->
  forall limit,
    walk (with_files w fs') q logparserfn rotate limit
    = walk w q logparserfn rotate limit.
Proof.
  pattern rotate. revert rotate.
  apply (walk_ind q). intros rotate IH Hr limit.
  destruct (Z.eq_dec rotate gap) as [->|Hne].
  - destruct Hmissing, Hmissing'.
    rewrite (walk_backward_missing w q logparserfn gap limit) by assumption.
    apply walk_backward_missing; simpl; assumption.
  - assert (Hin : out_of_range q rotate = false)
      by (apply out_of_range_false; lia).
    rewrite (walk_step (with_files w fs') q logparserfn rotate limit).
    rewrite (walk_step w q logparserfn rotate limit), Hin.
    destruct (determine_filename_agree rotate) as [-> Hfile]; [lia|].
    destruct (determine_filename w q rotate) as [probes filename].
    change (files (with_files w fs') filename = files w filename) in Hfile.
    rewrite Hfile.
    assert (Hnext : forall limit,
               walk (with_files w fs') q logparserfn (next_rotate q rotate) limit
               = walk w q logparserfn (next_rotate q rotate) limit).
    { apply IH; [exact Hin|]. unfold next_rotate. rewrite Hbackward. lia. }
    destruct (files w filename) as [content|].
    + change (read_file (with_files w fs') q logparserfn content limit)
        with (read_file w q logparserfn content limit).
      destruct (read_file w q logparserfn content limit) as [entries limit'].
      rewrite Hnext. reflexivity.
    + rewrite Hnext. reflexivity.
Qed.

End MissingRotation.

(** C4.  A backward walk that finds neither variant of a rotation index
    greater than 0 stops there: it returns no entry and probes nothing
    further, so the result of a backward query is the same in any two log
    sets that agree below the gap (live, [.1], [.3] with [.2] missing and
    [maxrotate = 5]: nothing of [.3] is returned).  A forward walk that finds
    no file at an index goes on with the index one lower. *)
Theorem C4_missing_rotation :
  (forall (E : Type) (w : World) (q : Query) (p : Parser E) (rotate : Z)
          (limit : option Z),
      forward q = false ->
      0 < rotate <= maxrotate q ->
      files w (rotated_name q rotate) = None ->
      files w (rotated_name q rotate +:+ ".gz") = None ->
      walk w q p rotate limit =
      ([IsFile (rotated_name q rotate);
        IsFile (rotated_name q rotate +:+ ".gz")], []))
  /\
  (forall (E : Type) (w : World) (fs' : string -> option (list string))
          (q : Query) (p : Parser E) (gap : Z) (limit : option Z),
      forward q = false ->
      0 < gap <= maxrotate q ->
      (forall path, before_gap q gap path -> fs' path = files w path) ->
      files w (rotated_name q gap) = None ->
      files w (rotated_name q gap +:+ ".gz") = None ->
      fs' (rotated_name q gap) = None ->
      fs' (rotated_name q gap +:+ ".gz") = None ->
      ParseRotatedLog (with_files w fs') q p None limit
      = ParseRotatedLog w q p None limit)
  /\
  (forall (E : Type) (w : World) (q : Query) (p : Parser E) (rotate : Z)
          (limit : option Z),
      forward q = true ->
      out_of_range q rotate = false ->
      located w q rotate = None ->
      walk w q p rotate limit =
      ((determine_filename w q rotate).1
         ++ IsFile (determine_filename w q rotate).2
         :: (walk w q p (rotate - 1) limit).1,
       (walk w q p (rotate - 1) limit).2)).
Proof.
  split; [|split].
  - intros. apply walk_backward_missing; assumption.
  - intros E w fs' q p gap limit Hbwd Hgap Hagree H1 H2 H3 H4.
    unfold ParseRotatedLog, first_rotate. simpl. rewrite Hbwd.
    apply (walk_agree_to_gap w fs' q p gap); auto. lia.
  - intros. apply walk_forward_missing; assumption.
Qed.

(** The log set of the specification's example: live, [.1] and [.3]
    present, [.2] missing, queried backward with [maxrotate = 5]. *)
Example gap_example_outcome :
  ParseRotatedLog
    (Sample.world (Sample.gap_at_2 ["a,1"; "b,2"] ["0,z"] ["x,3"]))
    (Sample.query false None None 5) default_logparserfn None None
  = ([IsFile "log"; Open "log"; IsFile "log.1"; IsFile "log.1"; Open "log.1";
      IsFile "log.2"; IsFile "log.2.gz"],
     [("b", "2"); ("a", "1"); ("0", "z")]).
Proof. vm_compute. reflexivity. Qed.

Lemma C4_missing_rotation_witness :
  let w := Sample.world (Sample.gap_at_2 ["a,1"; "b,2"] ["0,z"] ["x,3"]) in
  let q := Sample.query false None None 5 in
  let qf := Sample.query true None None 5 in
  walk w q default_logparserfn 2 None
  = ([IsFile "log.2"; IsFile "log.2.gz"], [])
  /\ ParseRotatedLog
       (with_files w (Sample.gap_at_2 ["a,1"; "b,2"] ["0,z"] ["y,4"; "z,5"]))
       q default_logparserfn None None
     = ParseRotatedLog w q default_logparserfn None None
  /\ walk w qf default_logparserfn 2 None
     = ((determine_filename w qf 2).1
          ++ IsFile (determine_filename w qf 2).2
          :: (walk w qf default_logparserfn (2 - 1) None).1,
        (walk w qf default_logparserfn (2 - 1) None).2).
Proof.
  intros w q qf. split; [|split].
  - apply (proj1 C4_missing_rotation); [reflexivity|simpl; lia|reflexivity..].
  - apply (proj1 (proj2 C4_missing_rotation) _ w _ q default_logparserfn 2 None);
      [reflexivity|simpl; lia| |reflexivity..].
    intros path [->|(r & Hr & Hpath)]; [reflexivity|].
    assert (r = 1) as -> by lia.
    destruct Hpath as [->| ->]; reflexivity.
  - apply (proj2 (proj2 C4_missing_rotation)); reflexivity.
Defined.

(** ** The cursor range filter (C6) *)

Section CursorFilter.

Variable w : World.
Variable q : Query.

Lemma cursor_condition_bound (f1 : string) :
  cursor_condition w q f1 = true <-> cursor_bound w q f1.
Proof.
  unfold cursor_condition, cursor_bound, awk_le, awk_lt, awk_ge, awk_gt,
    tok_le, tok_lt, tok_ge, tok_gt.
  destruct (forward q), (includecursor q); simpl;
    destruct (awk_compare w f1 (Py.str_of (cursor q)));
    split; intros H; try reflexivity; try discriminate; try congruence;
    try (exfalso; apply H; reflexivity).
Qed.

Lemma endcursor_condition_bound (f1 : string) :
  endcursor_condition w q f1 = true <-> endcursor_bound w q f1.
Proof.
  unfold endcursor_condition, endcursor_bound, awk_le, awk_lt, awk_ge, awk_gt,
    tok_le, tok_lt, tok_ge, tok_gt.
  destruct (forward q), (includeendcursor q); simpl;
    destruct (awk_compare w f1 (Py.str_of (endcursor q)));
    split; intros H; try reflexivity; try discriminate; try congruence;
    try (exfalso; apply H; reflexivity).
Qed.

Lemma awk_program_bounds (line : string) :
  awk_program w q line = true <->
  cursor_bound w q (Coreutils.awk_field1 line) /\
  (Py.truthy (endcursor q) = true ->
   endcursor_bound w q (Coreutils.awk_field1 line)).
Proof.
  unfold awk_program. rewrite andb_true_iff, cursor_condition_bound.
  destruct (Py.truthy (endcursor q)).
  - rewrite endcursor_condition_bound. intuition.
  - intuition discriminate.
Qed.

End CursorFilter.

(** *** awk's comparison and the order of the specification *)

Lemma text_char_not_digit (c : ascii) :
  Awk.text_char c = true -> Awk.is_digit c = false.
Proof.
  unfold Awk.text_char, Awk.number_char. intros H.
  repeat (apply andb_true_iff in H as [H ?]).
  destruct (Awk.is_digit c); [|reflexivity].
  rewrite orb_true_r in *. discriminate.
Qed.

Lemma plain_text_not_numeral (s : string) :
  Awk.plain_text s = true -> Awk.small_natural s = false.
Proof.
  unfold Awk.plain_text, Awk.small_natural. intros H.
  apply andb_true_iff in H as [H _].
  apply andb_false_iff. right.
  induction s as [|c s IH]; simpl in *; [discriminate|].
  apply orb_true_iff in H as [H|H].
  - rewrite (text_char_not_digit _ H). reflexivity.
  - rewrite (IH H). apply andb_false_r.
Qed.

Lemma awk_like_compare : awk_like Awk.compare.
Proof.
  split.
  - intros field bound Hplain. unfold Awk.compare.
    rewrite (plain_text_not_numeral _ Hplain), andb_false_r. reflexivity.
  - intros field bound Hf Hb. unfold Awk.compare. rewrite Hf, Hb. reflexivity.
Qed.

(** The awk program gives the same verdict under any comparison that
    agrees with awk's on the field of the line and the bounds present. *)
Lemma awk_program_with_compare
  (w : World) (q : Query) (cmp : string -> string -> comparison) (line : string) :
  let f1 := Coreutils.awk_field1 line in
  awk_compare w f1 (Py.str_of (cursor q)) = cmp f1 (Py.str_of (cursor q)) ->
  (Py.truthy (endcursor q) = true ->
   awk_compare w f1 (Py.str_of (endcursor q)) = cmp f1 (Py.str_of (endcursor q))) ->
  awk_program w q line = awk_program (with_compare w cmp) q line.
Proof.
  intros f1 Hc He.
  unfold awk_program, cursor_condition, endcursor_condition,
    awk_le, awk_lt, awk_ge, awk_gt.
  fold f1. cbn [awk_compare with_compare]. rewrite Hc.
  destruct (Py.truthy (endcursor q)); [rewrite (He eq_refl)|]; reflexivity.
Qed.

Lemma awk_program_textual (w : World) (q : Query) (line : string) :
  awk_like (awk_compare w) -> textual_bounds q ->
  awk_program w q line = awk_program (lexicographic w) q line.
Proof.
  intros [Htext _] [Hc He]. apply awk_program_with_compare.
  - apply Htext, Hc.
  - intros H. apply Htext, He, H.
Qed.

Lemma awk_program_numeric (w : World) (q : Query) (line : string) :
  awk_like (awk_compare w) -> numeric_bounds q ->
  Awk.small_natural (Coreutils.awk_field1 line) = true ->
  awk_program w q line = awk_program (numeric w) q line.
Proof.
  intros [_ Hnum] [Hc He] Hf. apply awk_program_with_compare.
  - apply Hnum; assumption.
  - intros H. apply Hnum; auto.
Qed.

(** The verdict of the filter stage on a line in terms of the bounds, in
    the comparison of any world whose awk program agrees on the line. *)
Lemma cursor_stage_bounds
  (w w' : World) (q : Query) (lines : list string) (line token payload : string) :
  Py.truthy (cursor q) = true ->
  Py.cut "," line = Some (token, payload) ->
  awk_program w q line = awk_program w' q line ->
  In line (cursor_stage w q lines) <->
  In line lines /\
  cursor_bound w' q token /\
  (Py.truthy (endcursor q) = true -> endcursor_bound w' q token).
Proof.
  intros Hcursor Hcut Hsame. unfold cursor_stage. rewrite Hcursor.
  rewrite filter_In, Hsame, awk_program_bounds.
  unfold Coreutils.awk_field1. rewrite Hcut. reflexivity.
Qed.




Example cursor_stage_backward :
  cursor_stage (Sample.world (Sample.live_only []))
    (Sample.query false (Some "m") (Some "c") 0)
    ["a,1"; "c,2"; "d,x"; "m,3"; "z,9"; "nocomma"]
  = ["c,2"; "d,x"; "m,3"].
Proof. reflexivity. Qed.

Example cursor_stage_timestamps :
  cursor_stage (Sample.awk_world (Sample.live_only []))
    (Sample.query false (Some "2024-01-01T00:00:03")
       (Some "2024-01-01T00:00:02") 0)
    Sample.four_lines
  = ["2024-01-01T00:00:02,B"; "2024-01-01T00:00:03,C"].
Proof. reflexivity. Qed.

(** Numerals are compared by value, other tokens as strings. *)
Example cursor_stage_numerals :
  cursor_stage (Sample.awk_world (Sample.live_only []))
    (Sample.query false (Some "9") None 0)
    ["8,a"; "9,b"; "10,c"; "1a,d"]
  = ["8,a"; "9,b"; "1a,d"].
Proof. reflexivity. Qed.

(** ** Where entries come from *)

Section Provenance.

Context {E : Type}.
Variable w : World.
Variable q : Query.
Variable logparserfn : Parser E.

Local Abbreviation eol := (entry_of_line logparserfn).

Lemma elem_of_omap_In {A B} (f : A -> option B) (l : list A) (y : B) :
  In y (omap f l) -> exists x, In x l /\ f x = Some y.
Proof.
  intros Hy. apply list_elem_of_In, list_elem_of_omap in Hy as (x & Hx & Hfx).
  exists x. split; [apply list_elem_of_In, Hx|exact Hfx].
Qed.

(** An entry of one file comes from a line of that file which the filters
    select. *)
Lemma taken_provenance (content : list string) (limit : option Z) (e : E) :
  In e (taken limit (omap eol (rev (pipeline w q content limit)))) ->
  exists line,
    In line content /\
    selects w q (Coreutils.delete_nul line) = true /\
    eol (Coreutils.delete_nul line) = Some e.
Proof.
  intros He.
  apply list_elem_of_In, (sublist_subseteq _ _ (taken_sublist _ _)),
    list_elem_of_In in He.
  apply elem_of_omap_In in He as (line & Hline & Hparse).
  apply in_rev, pipeline_elem in Hline as [Hline Hsel].
  apply in_map_iff in Hline as (raw & <- & Hraw).
  exists raw. auto.
Qed.

(** Every returned entry was parsed from a selected line of a file the
    walk located at an index in range. *)
Lemma walk_provenance (e : E) (rotate : Z) :
  forall limit,
    In e (walk w q logparserfn rotate limit).2 ->
    exists r content line,
      out_of_range q r = false /\
      located w q r = Some content /\
      In line content /\
      selects w q (Coreutils.delete_nul line) = true /\
      eol (Coreutils.delete_nul line) = Some e.
Proof.
  pattern rotate. revert rotate.
  apply (walk_ind q). intros rotate IH limit.
  rewrite walk_entries.
  destruct (out_of_range q rotate) eqn:Hin; [intros []|].
  specialize (IH eq_refl).
  destruct (located w q rotate) as [content|] eqn:Hloc.
  - cbv zeta.
    set (es := taken limit _).
    assert (Hes : In e es -> exists r content line,
               out_of_range q r = false /\ located w q r = Some content /\
               In line content /\
               selects w q (Coreutils.delete_nul line) = true /\
               eol (Coreutils.delete_nul line) = Some e).
    { intros He. apply taken_provenance in He as (line & ? & ? & ?).
      exists rotate, content, line. auto. }
    destruct (limit_open _); [|exact Hes].
    destruct (forward q); intros He; apply in_app_or in He as [He|He];
      eauto.
  - destruct (negb (forward q) && (0 <? rotate)); [intros []|apply IH].
Qed.

End Provenance.

(** ** The limit countdown (C10) *)



Example skipped_line_keeps_limit :
  collect Sample.skipping_parser ["skip,x"; "b,2"] (Some 2) [] = ([("b", "2")], Some 1).
Proof. reflexivity. Qed.

(** ** The default parser (C9) *)

(** C9.  Without a parser the query returns a list all the same, and every
    entry in it is the pair of the text before the first comma and the text
    after it, each stripped, of a line (as [tr] hands it on) of a file the
    walk located. *)
Theorem C9_default_parser_pairs
  (w : World) (q : Query) (rotate limit : option Z) (entry : string * string) :
  In entry (ParseRotatedLog w q default_logparserfn rotate limit).2 ->
  exists (r : Z) (content : list string) (line token payload : string),
    located w q r = Some content /\
    In line content /\
    Py.cut "," (Coreutils.delete_nul line) = Some (token, payload) /\
    entry = (Py.strip token, Py.strip payload).
Proof.
  intros Hin. unfold ParseRotatedLog in Hin.
  apply walk_provenance in Hin as (r & content & line & _ & Hloc & Hline & _ & Hparse).
  rewrite entry_of_line_cut in Hparse.
  destruct (Py.cut "," (Coreutils.delete_nul line)) as [[token payload]|] eqn:Hcut;
    [|discriminate].
  unfold default_logparserfn in Hparse. injection Hparse as <-.
  exists r, content, line, token, payload. auto.
Qed.

Lemma C9_default_parser_pairs_witness :
  exists (r : Z) (content : list string) (line token payload : string),
    located (Sample.world (Sample.live_and_gz [" a , 1 "; "b,2,3"] ["0,z"]))
      (Sample.query false None None 3) r = Some content /\
    In line content /\
    Py.cut "," (Coreutils.delete_nul line) = Some (token, payload) /\
    ("a", "1") = (Py.strip token, Py.strip payload).
Proof.
  apply (C9_default_parser_pairs
           (Sample.world (Sample.live_and_gz [" a , 1 "; "b,2,3"] ["0,z"]))
           (Sample.query false None None 3) None None ("a", "1")).
  vm_compute. auto.
Defined.

Example default_parser_outcome :
  (ParseRotatedLog
     (Sample.world (Sample.live_and_gz [" a , 1 "; "b,2,3"; "nocomma"; ""] ["0,z"]))
     (Sample.query false None None 3) default_logparserfn None None).2
  = [("b", "2,3"); ("a", "1"); ("0", "z")].
Proof. vm_compute. reflexivity. Qed.

(** ** The query window (C1) *)




Example window_outcome :
  let w := Sample.awk_world
             (Sample.live_and_gz Sample.five_lines Sample.four_lines) in
  let q := Sample.query false (Some "2024-01-01T00:00:06")
             (Some "2024-01-01T00:00:03") 3 in
  (ParseRotatedLog w q default_logparserfn None None).2
  = [("2024-01-01T00:00:06", "F"); ("2024-01-01T00:00:05", "E");
     ("2024-01-01T00:00:04", "D"); ("2024-01-01T00:00:03", "C")]
  /\ awk_like (awk_compare w) /\ textual_bounds q.
Proof.
  intros w q. split; [vm_compute; reflexivity|].
  split; [apply awk_like_compare|].
  split; intros; reflexivity.
Qed.

(** ** Malformed lines (C7) *)

Section LiveOnly.

Context {E : Type}.
Variable w : World.
Variable q : Query.
Variable logparserfn : Parser E.

Local Abbreviation eol := (entry_of_line logparserfn).
Local Abbreviation go := (walk w q logparserfn).

Hypothesis Hmax : 0 <= maxrotate q.
Hypothesis Hrotated :
  forall r, 0 < r <= maxrotate q ->
    files w (rotated_name q r) = None /\
    files w (rotated_name q r +:+ ".gz") = None.

Lemma located_rotated_missing (r : Z) :
  0 < r <= maxrotate q -> located w q r = None.
Proof.
  intros Hr. destruct (Hrotated r Hr) as [Hplain Hgz].
  unfold located. rewrite determine_filename_missing by (lia || assumption).
  exact Hgz.
Qed.

Lemma located_live : located w q 0 = files w (logfile q).
Proof. reflexivity. Qed.

(** With no rotated file a walk without limit returns what the live file
    yields, whatever the direction. *)
Lemma walk_live_only (content : list string) :
  files w (logfile q) = Some content ->
  (go (first_rotate q None) None).2 = omap eol (rev (pipeline w q content None)).
Proof.
  intros Hlive.
  assert (Hzero : forall tail_entries,
             (go (next_rotate q 0) None).2 = tail_entries ->
             tail_entries = [] ->
             (go 0 None).2 = omap eol (rev (pipeline w q content None))).
  { intros tl Htl ->. rewrite walk_entries.
    replace (out_of_range q 0) with false
      by (symmetry; apply out_of_range_false; lia).
    rewrite located_live, Hlive. cbv zeta. simpl taken. simpl remaining.
    simpl limit_open. cbv iota. rewrite Htl.
    destruct (forward q); [reflexivity|apply app_nil_r]. }
  unfold first_rotate. destruct (forward q) eqn:Hfwd.
  - (* forward: walk down over the missing rotations *)
    assert (Hdown : forall n : nat, Z.of_nat n <= maxrotate q ->
               (go (Z.of_nat n) None).2 = (go 0 None).2).
    { induction n as [|n IH]; intros Hn; [reflexivity|].
      rewrite walk_forward_missing;
        [|exact Hfwd|apply out_of_range_false; lia
         |apply located_rotated_missing; lia].
      simpl snd. replace (Z.of_nat (S n) - 1) with (Z.of_nat n) by lia.
      apply IH. lia. }
    rewrite <- (Z2Nat.id (maxrotate q)) by exact Hmax.
    rewrite Hdown by lia.
    apply (Hzero _ eq_refl).
    unfold next_rotate. rewrite Hfwd, walk_entries. reflexivity.
  - apply (Hzero _ eq_refl).
    unfold next_rotate. rewrite Hfwd, walk_entries.
    change (0 + 1) with 1.
    destruct (out_of_range q 1) eqn:Hone; [reflexivity|].
    apply out_of_range_false in Hone.
    rewrite located_rotated_missing by lia. rewrite Hfwd. reflexivity.
Qed.

(** Past the live file the walk finds nothing. *)
Lemma walk_past_live (limit : option Z) : (go (next_rotate q 0) limit).2 = [].
Proof.
  rewrite (walk_entries w q logparserfn (next_rotate q 0) limit).
  unfold next_rotate. destruct (forward q) eqn:Hfwd; [reflexivity|].
  change (0 + 1) with 1.
  destruct (out_of_range q 1) eqn:Hone; [reflexivity|].
  apply out_of_range_false in Hone.
  rewrite located_rotated_missing by lia.
  reflexivity.
Qed.

(** With no rotated file a walk returns what the loop takes from the live
    file, whatever the limit and the direction. *)
Lemma walk_live_only_limited (content : list string) (limit : option Z) :
  files w (logfile q) = Some content ->
  (go (first_rotate q None) limit).2
  = taken limit (omap eol (rev (pipeline w q content limit))).
Proof.
  intros Hlive.
  assert (Hzero : (go 0 limit).2
                  = taken limit (omap eol (rev (pipeline w q content limit)))).
  { rewrite (walk_entries w q logparserfn 0 limit).
    replace (out_of_range q 0) with false
      by (symmetry; apply out_of_range_false; lia).
    rewrite located_live, Hlive. cbv zeta.
    set (es := taken limit _). set (limit' := remaining limit _).
    rewrite (walk_past_live limit').
    destruct (limit_open _); [|reflexivity].
    destruct (forward q); [reflexivity|apply app_nil_r]. }
  unfold first_rotate. destruct (forward q) eqn:Hfwd; [|exact Hzero].
  assert (Hdown : forall n : nat, Z.of_nat n <= maxrotate q ->
             (go (Z.of_nat n) limit).2 = (go 0 limit).2).
  { induction n as [|n IH]; intros Hn; [reflexivity|].
    rewrite (walk_forward_missing w q logparserfn (Z.of_nat (S n)) limit);
      [|exact Hfwd|apply out_of_range_false; lia
       |apply located_rotated_missing; lia].
    simpl snd. replace (Z.of_nat (S n) - 1) with (Z.of_nat n) by lia.
    apply IH. lia. }
  rewrite <- (Z2Nat.id (maxrotate q)) by exact Hmax.
  rewrite Hdown by lia. exact Hzero.
Qed.

End LiveOnly.

Lemma filter_all {A} (f : A -> bool) (l : list A) :
  (forall x, In x l -> f x = true) -> List.filter f l = l.
Proof.
  induction l as [|x l IH]; intros Hall; simpl; [reflexivity|].
  rewrite (Hall x (or_introl eq_refl)). f_equal.
  apply IH. intros y Hy. apply Hall. right. exact Hy.
Qed.

Lemma omap_length_all {A B} (f : A -> option B) (l : list A) :
  (forall x, In x l -> is_Some (f x)) -> length (omap f l) = length l.
Proof.
  induction l as [|x l IH]; intros Hall; [reflexivity|].
  destruct (Hall x (or_introl eq_refl)) as [y Hy].
  cbn. rewrite Hy. cbn. f_equal.
  apply IH. intros z Hz. apply Hall. right. exact Hz.
Qed.

Lemma omap_filter_drop {A B} (f : A -> option B) (g : A -> bool) (x : A) :
  f x = None -> omap f (rev (List.filter g [x])) = [].
Proof. intros Hx. simpl. destruct (g x); [cbn; rewrite Hx|]; reflexivity. Qed.

Lemma malformed_no_entry {E : Type} (p : Parser E) (line : string) :
  malformed p line -> entry_of_line p line = None.
Proof.
  intros Hbad. rewrite entry_of_line_cut.
  destruct Hbad as [Hcut|(a & b & Hcut & Hraise)].
  - rewrite Hcut. reflexivity.
  - rewrite Hcut, Hraise. reflexivity.
Qed.

Lemma omap_skip {A B} (f : A -> option B) (pre post : list A) (x : A) :
  f x = None -> omap f (pre ++ x :: post) = omap f (pre ++ post).
Proof.
  intros Hx. rewrite !omap_app. cbn. rewrite Hx. reflexivity.
Qed.

(** A line that yields no entry leaves no mark on the loop, wherever it
    stands and whatever the limit. *)
Lemma collect_skip {E : Type} (p : Parser E) (pre post : list string)
  (bad : string) (limit : option Z) (acc : list E) :
  entry_of_line p bad = None ->
  collect p (pre ++ bad :: post) limit acc = collect p (pre ++ post) limit acc.
Proof.
  intros Hbad. rewrite !collect_spec, (omap_skip _ pre post bad Hbad).
  reflexivity.
Qed.

(** [tail] and [head] hand on a stream that is no longer than the count. *)
Lemma limit_stage_all (q : Query) (n : Z) (s : list string) :
  Z.of_nat (length s) <= n -> limit_stage q (Some n) s = s.
Proof.
  intros Hn.
  unfold limit_stage, Coreutils.tail_n, Coreutils.head_n, Coreutils.last_n.
  destruct (negb (forward q)).
  - replace (length s - Z.to_nat (Z.abs n))%nat with 0%nat by lia.
    reflexivity.
  - destruct (Z.leb_spec 0 n); [|lia]. apply take_ge. lia.
Qed.

Section DeletedLine.

Context {E : Type}.
Variable w : World.
Variable q : Query.
Variable p : Parser E.
Variable path : string.
Variables before after : list string.
Variable bad : string.

Hypothesis Hfile : files w path = Some (before ++ bad :: after).
Hypothesis Hbad : entry_of_line p (Coreutils.delete_nul bad) = None.

Local Abbreviation w' :=
  (with_files w (write_file (files w) path (before ++ after))).

Lemma isfile_write (f : string) : isfile w' f = isfile w f.
Proof.
  unfold isfile, with_files, write_file. simpl.
  destruct (String.eqb_spec f path) as [->|]; [rewrite Hfile|]; reflexivity.
Qed.

Lemma determine_filename_write (rotate : Z) :
  determine_filename w' q rotate = determine_filename w q rotate.
Proof.
  unfold determine_filename. rewrite isfile_write. reflexivity.
Qed.

(** Without a limit the loop gets the same entries from the file with and
    without the line. *)
Lemma unlimited_entries_deleted_line :
  omap (entry_of_line p) (rev (pipeline w q (before ++ after) None))
  = omap (entry_of_line p) (rev (pipeline w q (before ++ bad :: after) None)).
Proof.
  rewrite !pipeline_unlimited. unfold Coreutils.tr_d_nul.
  rewrite !map_app. simpl map.
  rewrite !List.filter_app, !rev_app_distr, !omap_app. f_equal.
  simpl List.filter.
  destruct (selects w q (Coreutils.delete_nul bad)); [|reflexivity].
  simpl rev. rewrite omap_app. cbn. rewrite Hbad. symmetry. apply app_nil_r.
Qed.

(** A query without limit does the same, probe for probe and entry for
    entry, on the log set with the line deleted. *)
Lemma walk_deleted_line (rotate : Z) :
  walk w' q p rotate None = walk w q p rotate None.
Proof.
  pattern rotate. revert rotate.
  apply (walk_ind q). intros rotate IH.
  rewrite (walk_step w' q p rotate None), (walk_step w q p rotate None).
  destruct (out_of_range q rotate) eqn:Hin; [reflexivity|].
  specialize (IH eq_refl).
  rewrite determine_filename_write.
  destruct (determine_filename w q rotate) as [probes filename].
  change (files w' filename)
    with (if String.eqb filename path then Some (before ++ after)
          else files w filename).
  destruct (String.eqb_spec filename path) as [->|Hother].
  - rewrite Hfile.
    rewrite (read_file_spec w' q p), (read_file_spec w q p).
    change (pipeline w' q) with (pipeline w q).
    rewrite unlimited_entries_deleted_line.
    cbv beta iota zeta. simpl remaining. simpl limit_open. cbv iota.
    rewrite IH. reflexivity.
  - destruct (files w filename) as [content|].
    + change (read_file w' q p content None) with (read_file w q p content None).
      rewrite (read_file_spec w q p).
      cbv beta iota zeta. simpl remaining. simpl limit_open. cbv iota.
      rewrite IH. reflexivity.
    + rewrite IH. reflexivity.
Qed.

End DeletedLine.




Example malformed_line_outcome :
  (ParseRotatedLog
     (Sample.world
        (Sample.live_only
           (Sample.four_lines ++ "no separator here" :: Sample.five_lines)))
     (Sample.query true None None 9) default_logparserfn None None).2
  = [("2024-01-01T00:00:09", "I"); ("2024-01-01T00:00:08", "H");
     ("2024-01-01T00:00:07", "G"); ("2024-01-01T00:00:06", "F");
     ("2024-01-01T00:00:05", "E"); ("2024-01-01T00:00:04", "D");
     ("2024-01-01T00:00:03", "C"); ("2024-01-01T00:00:02", "B");
     ("2024-01-01T00:00:01", "A")].
Proof. vm_compute. reflexivity. Qed.

(** A line on which the parser raises, in a rotated file of a query with a
    cursor: the outcome is that of the log set without the line. *)
Example raising_line_outcome :
  let fs := Sample.live_and_gz ["c,3"; "d,4"] ["a,1"; "boom,x"; "b,2"] in
  let q := Sample.query false (Some "c") None 3 in
  ParseRotatedLog (Sample.awk_world fs) q Sample.skipping_parser None None
  = ([IsFile "log"; Open "log"; IsFile "log.1"; IsFile "log.1.gz";
      Open "log.1.gz"; IsFile "log.2"; IsFile "log.2.gz"],
     [("c", "3"); ("b", "2"); ("a", "1")])
  /\ ParseRotatedLog
       (Sample.awk_world (write_file fs "log.1.gz" ["a,1"; "b,2"]))
       q Sample.skipping_parser None None
     = ParseRotatedLog (Sample.awk_world fs) q Sample.skipping_parser None None.
Proof. vm_compute. split; reflexivity. Qed.

(** ** The limit (C5) *)

Lemma omap_rev {A B} (f : A -> option B) (l : list A) :
  omap f (rev l) = rev (omap f l).
Proof.
  induction l as [|x l IH]; [reflexivity|].
  simpl rev. rewrite omap_app, IH. cbn.
  destruct (f x); [reflexivity|]. apply app_nil_r.
Qed.

Lemma omap_take_all {A B} (f : A -> option B) (l : list A) (n : nat) :
  (forall x, In x l -> is_Some (f x)) -> omap f (take n l) = take n (omap f l).
Proof.
  revert n. induction l as [|x l IH]; intros n Hall; [destruct n; reflexivity|].
  destruct n as [|n]; [reflexivity|].
  destruct (Hall x (or_introl eq_refl)) as [y Hy].
  cbn. rewrite Hy. cbn. f_equal.
  apply IH. intros z Hz. apply Hall. right. exact Hz.
Qed.

Lemma omap_drop_all {A B} (f : A -> option B) (l : list A) (n : nat) :
  (forall x, In x l -> is_Some (f x)) -> omap f (drop n l) = drop n (omap f l).
Proof.
  revert n. induction l as [|x l IH]; intros n Hall; [destruct n; reflexivity|].
  destruct n as [|n]; [reflexivity|].
  destruct (Hall x (or_introl eq_refl)) as [y Hy].
  cbn. rewrite Hy. cbn.
  apply IH. intros z Hz. apply Hall. right. exact Hz.
Qed.

Section Limit.

Context {E : Type}.
Variable w : World.
Variable q : Query.
Variable logparserfn : Parser E.

Local Abbreviation eol := (entry_of_line logparserfn).
Local Abbreviation go := (walk w q logparserfn).
Local Abbreviation dir := (in_direction q).

Lemma taken_length_le (content : list string) (n : Z) :
  0 <= n ->
  Z.of_nat (length (taken (Some n) (omap eol (rev (pipeline w q content (Some n))))))
  <= n.
Proof.
  intros Hn. unfold taken. rewrite length_take.
  pose proof (omap_length_le eol (rev (pipeline w q content (Some n)))) as Hle.
  rewrite length_rev in Hle.
  pose proof (limit_stage_length q n (pipeline w q content None) Hn) as Hlen.
  rewrite <- (pipeline_limited w q content (Some n)) in Hlen.
  lia.
Qed.

(** A query with a non-negative limit returns no more entries than the
    limit. *)
Lemma walk_length_le (rotate : Z) :
  forall n, 0 <= n -> Z.of_nat (length (go rotate (Some n)).2) <= n.
Proof.
  pattern rotate. revert rotate.
  apply (walk_ind q). intros rotate IH n Hn.
  rewrite walk_entries.
  destruct (out_of_range q rotate); [simpl; lia|].
  specialize (IH eq_refl).
  destruct (located w q rotate) as [content|].
  - cbv zeta.
    pose proof (taken_length_le content n Hn) as Hes.
    set (es := taken (Some n) _) in *.
    simpl remaining.
    destruct (limit_open _); [|exact Hes].
    specialize (IH (n - Z.of_nat (length es)) ltac:(lia)).
    destruct (forward q); rewrite length_app; lia.
  - destruct (negb (forward q) && (0 <? rotate)); [simpl; lia|].
    apply IH, Hn.
Qed.

Lemma in_direction_merge (rotatedlog entries : list E) :
  dir (if forward q then rotatedlog ++ entries else entries ++ rotatedlog)
  = dir entries ++ dir rotatedlog.
Proof.
  unfold in_direction. destruct (forward q); [apply rev_app_distr|reflexivity].
Qed.

Lemma in_direction_length (l : list E) : length (dir l) = length l.
Proof. unfold in_direction. destruct (forward q); [apply length_rev|reflexivity]. Qed.

Lemma taken_short (m : nat) (es : list E) :
  (length es <= m)%nat -> taken (Some (Z.of_nat m)) es = es.
Proof. intros Hle. simpl. apply take_ge. lia. Qed.

(** On one file whose filtered lines all parse, the limited entries are
    the first [m], in the direction of the query, of the unlimited ones. *)
Lemma file_limit_prefix (content : list string) (m : nat) :
  (forall line, In line (pipeline w q content None) -> is_Some (eol line)) ->
  dir (taken (Some (Z.of_nat m))
         (omap eol (rev (pipeline w q content (Some (Z.of_nat m))))))
  = take m (dir (omap eol (rev (pipeline w q content None)))).
Proof.
  intros Hall.
  rewrite pipeline_limited. set (F := pipeline w q content None) in *.
  rewrite !omap_rev.
  unfold limit_stage, in_direction, Coreutils.tail_n, Coreutils.head_n,
    Coreutils.last_n.
  replace (Z.to_nat (Z.abs (Z.of_nat m))) with m by lia.
  replace (0 <=? Z.of_nat m) with true by (symmetry; apply Z.leb_le; lia).
  rewrite Nat2Z.id.
  destruct (forward q); simpl negb; cbv iota.
  - rewrite omap_take_all by exact Hall.
    rewrite taken_short by (rewrite length_rev, length_take; lia).
    rewrite !rev_involutive. reflexivity.
  - rewrite omap_drop_all by exact Hall.
    rewrite taken_short
      by (rewrite length_rev, length_drop;
          pose proof (omap_length_le eol F); lia).
    rewrite firstn_rev.
    rewrite (omap_length_all eol F Hall). reflexivity.
Qed.

Hypothesis Hparse : all_lines_parse w q logparserfn.

Lemma walk_limit_prefix (rotate : Z) :
  forall m : nat,
    dir (go rotate (Some (Z.of_nat m))).2 = take m (dir (go rotate None).2).
Proof.
  pattern rotate. revert rotate.
  apply (walk_ind q). intros rotate IH m.
  rewrite (walk_entries w q logparserfn rotate (Some (Z.of_nat m))).
  rewrite (walk_entries w q logparserfn rotate None).
  destruct (out_of_range q rotate) eqn:Hin.
  { unfold in_direction. destruct (forward q); simpl; by rewrite take_nil. }
  specialize (IH eq_refl).
  destruct (located w q rotate) as [content|] eqn:Hloc.
  - cbv zeta.
    pose proof (file_limit_prefix content m
                  (fun line => Hparse rotate content line Hin Hloc)) as Hfile.
    set (es := taken (Some (Z.of_nat m)) _) in *.
    simpl (taken None _). simpl (remaining None _). simpl (limit_open None).
    cbv iota.
    set (A := omap eol (rev (pipeline w q content None))) in *.
    assert (Hlen : length es = min m (length A)).
    { rewrite <- (in_direction_length es), Hfile, length_take,
        in_direction_length. reflexivity. }
    rewrite (in_direction_merge _ A), take_app, in_direction_length.
    simpl remaining. unfold limit_open.
    destruct (Z.ltb_spec 0 (Z.of_nat m - Z.of_nat (length es))) as [Hopen|Hshut].
    + rewrite in_direction_merge, Hfile. f_equal.
      replace (Z.of_nat m - Z.of_nat (length es))
        with (Z.of_nat (m - length A)) by lia.
      apply IH.
    + rewrite Hfile.
      replace (m - length A)%nat with 0%nat by lia.
      rewrite take_0, app_nil_r. reflexivity.
  - destruct (negb (forward q) && (0 <? rotate)); [|apply IH].
    unfold in_direction. destruct (forward q); simpl; by rewrite take_nil.
Qed.

End Limit.

(** C5 as stated fails: [tail -n limit] counts lines before they are
    parsed, so a line that yields no entry uses up a place; with limit 1 the
    query below skips the entry [a] and returns [0] from the older file,
    which is no prefix of the unlimited result. *)
Lemma C5_counterexample :
  let w := Sample.world (Sample.live_and_gz ["a,1"; "garbage"] ["0,z"]) in
  let q := Sample.query false None None 3 in
  ~ in_direction q (ParseRotatedLog w q default_logparserfn None (Some 1)).2
    `prefix_of`
    in_direction q (ParseRotatedLog w q default_logparserfn None None).2.
Proof.
  intros w q [k Hk]. vm_compute in Hk. discriminate Hk.
Qed.

(** C5, amended.  A query with limit [n >= 0] returns at most [n] entries;
    and when every line that survives the filters yields an entry, its
    result, read in the direction of the query, is the first [n] entries of
    the result of the same query without limit. *)
Theorem C5_limit_prefix
  (E : Type) (w : World) (q : Query) (p : Parser E) (rotate : option Z) (n : Z) :
  0 <= n ->
  Z.of_nat (length (ParseRotatedLog w q p rotate (Some n)).2) <= n
  /\ (all_lines_parse w q p ->
      in_direction q (ParseRotatedLog w q p rotate (Some n)).2
      = take (Z.to_nat n) (in_direction q (ParseRotatedLog w q p rotate None).2)
      /\ in_direction q (ParseRotatedLog w q p rotate (Some n)).2
         `prefix_of` in_direction q (ParseRotatedLog w q p rotate None).2).
Proof.
  intros Hn. unfold ParseRotatedLog. split.
  - apply walk_length_le, Hn.
  - intros Hparse.
    assert (Heq : in_direction q (walk w q p (first_rotate q rotate) (Some n)).2
                  = take (Z.to_nat n)
                      (in_direction q (walk w q p (first_rotate q rotate) None).2)).
    { rewrite <- (Z2Nat.id n) at 1 by exact Hn.
      apply walk_limit_prefix, Hparse. }
    split; [exact Heq|].
    rewrite Heq. apply prefix_take.
Qed.

Lemma sample_lines_parse (fwd : bool) :
  all_lines_parse
    (Sample.world (Sample.live_and_gz ["a,1"; "b,2"] ["0,z"]))
    (Sample.query fwd None None 1) default_logparserfn.
Proof.
  intros r content line Hin Hloc Hline.
  apply out_of_range_false in Hin. simpl in Hin.
  assert (r = 0 \/ r = 1) as [-> | ->] by lia;
    vm_compute in Hloc; injection Hloc as <-;
    vm_compute in Hline;
    repeat destruct Hline as [<-|Hline]; try contradiction;
    eexists; reflexivity.
Qed.

Lemma C5_limit_prefix_witness :
  let w := Sample.world (Sample.live_and_gz ["a,1"; "b,2"] ["0,z"]) in
  let q := Sample.query true None None 1 in
  Z.of_nat (length (ParseRotatedLog w q default_logparserfn None (Some 2)).2) <= 2
  /\ in_direction q (ParseRotatedLog w q default_logparserfn None (Some 2)).2
     = take (Z.to_nat 2)
         (in_direction q (ParseRotatedLog w q default_logparserfn None None).2)
  /\ in_direction q (ParseRotatedLog w q default_logparserfn None (Some 2)).2
     `prefix_of`
     in_direction q (ParseRotatedLog w q default_logparserfn None None).2.
Proof.
  intros w q.
  destruct (C5_limit_prefix _ w q default_logparserfn None 2) as [Hlen Hprefix];
    [lia|].
  split; [exact Hlen|].
  apply Hprefix, sample_lines_parse.
Defined.

Example forward_limit_outcome :
  let w := Sample.world (Sample.live_and_gz ["a,1"; "b,2"] ["0,z"]) in
  let q := Sample.query true None None 1 in
  (ParseRotatedLog w q default_logparserfn None (Some 2)).2
  = [("a", "1"); ("0", "z")]
  /\ (ParseRotatedLog w q default_logparserfn None None).2
     = [("b", "2"); ("a", "1"); ("0", "z")].
Proof. vm_compute. split; reflexivity. Qed.

(** ** Order of the result (C2) *)

Section Order.

Context {E : Type}.
Variable w : World.
Variable q : Query.
Variable logparserfn : Parser E.

Local Abbreviation eol := (entry_of_line logparserfn).
Local Abbreviation go := (walk w q logparserfn).
Local Abbreviation newest_first := (fun r => rev (parsed_file w q logparserfn r)).

(** What one file contributes is a subsequence of its parsed lines, last
    line first: the stages only drop lines, the loop reads them
    backwards. *)
Lemma file_sublist (rotate : Z) (content : list string) (limit : option Z) :
  located w q rotate = Some content ->
  taken limit (omap eol (rev (pipeline w q content limit)))
  `sublist_of` newest_first rotate.
Proof.
  intros Hloc. unfold parsed_file. rewrite Hloc, <- omap_rev.
  etransitivity; [apply taken_sublist|].
  apply omap_sublist, rev_sublist.
  rewrite pipeline_limited.
  etransitivity; [apply limit_stage_sublist|].
  rewrite pipeline_unlimited. apply filter_sublist.
Qed.

Lemma ahead_step (rotate : Z) :
  out_of_range q rotate = false ->
  ahead w q logparserfn rotate =
  if forward q
  then ahead w q logparserfn (next_rotate q rotate) ++ newest_first rotate
  else newest_first rotate ++ ahead w q logparserfn (next_rotate q rotate).
Proof.
  intros Hin. apply out_of_range_false in Hin.
  unfold ahead, next_rotate. destruct (forward q).
  - replace (rotate - 1 + 1) with rotate by lia.
    rewrite (seqZ_app 0 rotate 1) by lia.
    rewrite flat_map_app. simpl. rewrite app_nil_r. reflexivity.
  - rewrite (seqZ_cons rotate) by lia. simpl.
    repeat f_equal; lia.
Qed.

Lemma walk_sublist_ahead (rotate : Z) :
  forall limit, (go rotate limit).2 `sublist_of` ahead w q logparserfn rotate.
Proof.
  pattern rotate. revert rotate.
  apply (walk_ind q). intros rotate IH limit.
  rewrite walk_entries.
  destruct (out_of_range q rotate) eqn:Hin; [apply sublist_nil_l|].
  specialize (IH eq_refl).
  rewrite (ahead_step rotate Hin).
  destruct (located w q rotate) as [content|] eqn:Hloc.
  - cbv zeta.
    pose proof (file_sublist rotate content limit Hloc) as Hfile.
    set (es := taken limit _) in *.
    destruct (limit_open _).
    + destruct (forward q); apply sublist_app; auto.
    + destruct (forward q);
        [apply sublist_inserts_l|apply sublist_inserts_r]; exact Hfile.
  - destruct (negb (forward q) && (0 <? rotate)); [apply sublist_nil_l|].
    destruct (forward q);
      [apply sublist_inserts_r|apply sublist_inserts_l]; apply IH.
Qed.

Lemma ahead_sublist_history (rotate : Z) :
  out_of_range q rotate = false ->
  ahead w q logparserfn rotate `sublist_of` rev (history w q logparserfn).
Proof.
  intros Hin. apply out_of_range_false in Hin.
  unfold history. rewrite flat_map_rev, rev_involutive.
  unfold ahead. destruct (forward q).
  - replace (maxrotate q + 1) with ((rotate + 1) + (maxrotate q - rotate)) by lia.
    rewrite (seqZ_app 0 (rotate + 1) (maxrotate q - rotate)) by lia.
    rewrite flat_map_app. apply sublist_inserts_r. reflexivity.
  - replace (maxrotate q + 1) with (rotate + (maxrotate q + 1 - rotate)) at 2 by lia.
    rewrite (seqZ_app 0 rotate (maxrotate q + 1 - rotate)) by lia.
    rewrite flat_map_app. apply sublist_inserts_l. reflexivity.
Qed.

(** The result is a subsequence of the log set read backwards. *)
Lemma walk_sublist_history (rotate : Z) (limit : option Z) :
  (go rotate limit).2 `sublist_of` rev (history w q logparserfn).
Proof.
  destruct (out_of_range q rotate) eqn:Hin.
  - rewrite walk_entries, Hin. apply sublist_nil_l.
  - etransitivity; [apply walk_sublist_ahead|].
    apply ahead_sublist_history, Hin.
Qed.

End Order.

(** C2 as stated fails for the forward direction: each file is read last
    line first and the newer files are put in front, so a forward query
    returns the latest entry first as well. *)
Lemma C2_counterexample :
  let w := Sample.world (Sample.live_only ["a,1"; "b,2"]) in
  let q := Sample.query true None None 0 in
  ~ oldest_first (map fst (ParseRotatedLog w q default_logparserfn None None).2).
Proof.
  intros w q Hsorted.
  assert (Hres : map fst (ParseRotatedLog w q default_logparserfn None None).2
                 = ["b"; "a"]) by (vm_compute; reflexivity).
  rewrite Hres in Hsorted.
  apply StronglySorted_inv in Hsorted as [_ Hb].
  apply Forall_inv in Hb. apply Hb. reflexivity.
Qed.

(** C2, amended.  Over a log set that is in order when read oldest rotation
    first and each file top to bottom, the returned sequence of a backward
    query and of a forward query alike is ordered latest first; the order
    comes from the files and the merge alone, the result being a
    subsequence of the log set read backwards. *)
Theorem C2_latest_first
  (E : Type) (w : World) (q : Query) (p : Parser E) (rotate limit : option Z)
  (R : E -> E -> Prop) :
  StronglySorted R (history w q p) ->
  (ParseRotatedLog w q p rotate limit).2 `sublist_of` rev (history w q p)
  /\ StronglySorted (flip R) (ParseRotatedLog w q p rotate limit).2.
Proof.
  intros Hsorted.
  pose proof (walk_sublist_history w q p (first_rotate q rotate) limit) as Hsub.
  split; [exact Hsub|].
  eapply StronglySorted_sublist; [exact Hsub|].
  apply StronglySorted_rev, Hsorted.
Qed.

Lemma C2_latest_first_witness :
  let w := Sample.world (Sample.live_and_gz ["a,1"; "b,2"] ["0,z"]) in
  let q := Sample.query true None None 1 in
  (ParseRotatedLog w q default_logparserfn None None).2
    `sublist_of` rev (history w q default_logparserfn)
  /\ StronglySorted (flip token_le)
       (ParseRotatedLog w q default_logparserfn None None).2.
Proof.
  intros w q.
  apply (C2_latest_first _ w q default_logparserfn None None token_le).
  assert (Hh : history w q default_logparserfn
               = [("0", "z"); ("a", "1"); ("b", "2")])
    by (vm_compute; reflexivity).
  rewrite Hh. unfold token_le.
  repeat constructor; simpl; discriminate.
Defined.

(** ** Exchanging the direction (C3) *)

Lemma flat_map_nil {A B} (f : A -> list B) (l : list A) :
  (forall x, In x l -> f x = []) -> flat_map f l = [].
Proof.
  induction l as [|x l IH]; intros Hall; simpl; [reflexivity|].
  rewrite (Hall x (or_introl eq_refl)). apply IH.
  intros y Hy. apply Hall. right. exact Hy.
Qed.

Section Unlimited.

Context {E : Type}.
Variable w : World.
Variable q : Query.
Variable logparserfn : Parser E.

Local Abbreviation eol := (entry_of_line logparserfn).
Local Abbreviation go := (walk w q logparserfn).
Local Abbreviation per_file := (file_entries w q logparserfn).

Lemma file_entries_located (rotate : Z) (content : list string) :
  located w q rotate = Some content ->
  per_file rotate = omap eol (rev (pipeline w q content None)).
Proof.
  intros Hloc. unfold file_entries. rewrite Hloc, read_file_spec. reflexivity.
Qed.

Lemma file_entries_missing (rotate : Z) :
  located w q rotate = None -> per_file rotate = [].
Proof. intros Hloc. unfold file_entries. rewrite Hloc. reflexivity. Qed.

(** One step of a walk without limit. *)
Lemma walk_unlimited_step (rotate : Z) :
  out_of_range q rotate = false ->
  (go rotate None).2 =
  if forward q then (go (rotate - 1) None).2 ++ per_file rotate
  else match located w q rotate with
       | None => if 0 <? rotate then [] else (go (rotate + 1) None).2
       | Some _ => per_file rotate ++ (go (rotate + 1) None).2
       end.
Proof.
  intros Hin. rewrite (walk_entries w q logparserfn rotate None), Hin.
  unfold next_rotate.
  destruct (located w q rotate) as [content|] eqn:Hloc.
  - rewrite (file_entries_located rotate content Hloc).
    destruct (forward q); reflexivity.
  - rewrite (file_entries_missing rotate Hloc).
    destruct (forward q); simpl; [rewrite app_nil_r|]; reflexivity.
Qed.

(** A forward walk without limit returns every file from the live file
    to the index it started at. *)
Lemma walk_forward_unlimited (n : nat) :
  forward q = true ->
  Z.of_nat n <= maxrotate q + 1 ->
  (go (Z.of_nat n - 1) None).2 = flat_map per_file (seqZ 0 (Z.of_nat n)).
Proof.
  intros Hfwd. induction n as [|n IH]; intros Hn.
  - rewrite (walk_entries w q logparserfn (Z.of_nat 0 - 1) None). reflexivity.
  - rewrite walk_unlimited_step by (apply out_of_range_false; lia).
    rewrite Hfwd, seqZ_S, flat_map_app. simpl flat_map.
    rewrite app_nil_r.
    replace (Z.of_nat (S n) - 1) with (Z.of_nat n) by lia.
    rewrite IH by lia. reflexivity.
Qed.

(** A backward walk over contiguous rotations returns every file from
    the index it stands at to the last one. *)
Lemma walk_backward_unlimited (n : nat) :
  forward q = false ->
  contiguous w q ->
  forall rotate,
    0 <= rotate ->
    Z.of_nat n = maxrotate q + 1 - rotate ->
    (go rotate None).2 = flat_map per_file (seqZ rotate (Z.of_nat n)).
Proof.
  intros Hbwd Hcont. induction n as [|n IH]; intros rotate Hpos Hn.
  - rewrite (walk_entries w q logparserfn rotate None).
    replace (out_of_range q rotate) with true; [reflexivity|].
    symmetry. unfold out_of_range. apply orb_true_iff. right.
    apply Z.ltb_lt. lia.
  - rewrite walk_unlimited_step by (apply out_of_range_false; lia).
    rewrite Hbwd, seqZ_cons by lia. simpl flat_map.
    replace (Z.pred (Z.of_nat (S n))) with (Z.of_nat n) by lia.
    change (Z.succ rotate) with (rotate + 1).
    destruct (located w q rotate) as [content|] eqn:Hloc.
    + rewrite (IH (rotate + 1)) by lia. reflexivity.
    + rewrite (file_entries_missing rotate Hloc). simpl.
      destruct (Z.ltb_spec 0 rotate) as [Hgt|Hzero].
      * symmetry. apply flat_map_nil. intros r Hr.
        apply list_elem_of_In, elem_of_seqZ in Hr.
        apply file_entries_missing, (Hcont rotate r); [lia..|exact Hloc].
      * apply IH; lia.
Qed.

End Unlimited.

Lemma awk_program_mirror (w : World) (q : Query) (line : string) :
  Py.truthy (cursor q) = true ->
  Py.truthy (endcursor q) = true ->
  awk_program w (mirror q) line = awk_program w q line.
Proof.
  intros Hc He. unfold awk_program. simpl. rewrite Hc, He.
  rewrite andb_comm. f_equal.
  - unfold endcursor_condition, cursor_condition. simpl.
    rewrite negb_involutive. destruct (forward q); reflexivity.
  - unfold endcursor_condition, cursor_condition. simpl.
    rewrite negb_involutive. destruct (forward q); reflexivity.
Qed.

Lemma file_entries_mirror
  {E : Type} (w : World) (q : Query) (p : Parser E) (rotate : Z) :
  Py.truthy (cursor q) = true ->
  Py.truthy (endcursor q) = true ->
  file_entries w (mirror q) p rotate = file_entries w q p rotate.
Proof.
  intros Hc He. unfold file_entries.
  change (located w (mirror q) rotate) with (located w q rotate).
  destruct (located w q rotate) as [content|]; [|reflexivity].
  rewrite (read_file_spec w (mirror q)), (read_file_spec w q).
  cbv zeta. cbn [fst taken].
  rewrite (pipeline_unlimited w (mirror q)), (pipeline_unlimited w q).
  do 2 f_equal.
  apply filter_ext. intros line. unfold selects. simpl.
  rewrite Hc, He, awk_program_mirror by assumption. reflexivity.
Qed.

(** C3 as stated fails: both directions return the latest entry first, so
    the forward result is the backward result itself, not its reverse. *)
Lemma C3_counterexample :
  let w := Sample.world (Sample.live_only ["a,1"; "b,2"]) in
  let q := Sample.query true (Some "a") (Some "b") 0 in
  (ParseRotatedLog w q default_logparserfn None None).2
  <> rev (ParseRotatedLog w (mirror q) default_logparserfn None None).2.
Proof. intros w q. vm_compute. discriminate. Qed.

(** C3, amended.  Over contiguous rotations and without limit, a forward
    query with both cursors present returns the same sequence, in the same
    latest-first order, as the backward query with the cursors and their
    inclusivity flags exchanged. *)
Theorem C3_mirror_same_sequence
  (E : Type) (w : World) (q : Query) (p : Parser E) :
  forward q = true ->
  Py.truthy (cursor q) = true ->
  Py.truthy (endcursor q) = true ->
  contiguous w q ->
  (ParseRotatedLog w q p None None).2
  = (ParseRotatedLog w (mirror q) p None None).2.
Proof.
  intros Hfwd Hc He Hcont.
  unfold ParseRotatedLog, first_rotate. simpl. rewrite Hfwd. simpl.
  destruct (Z.ltb_spec (maxrotate q) 0) as [Hneg|Hmax].
  - rewrite (walk_entries w q p (maxrotate q) None).
    rewrite (walk_entries w (mirror q) p 0 None).
    unfold out_of_range. simpl.
    replace (maxrotate q <? 0) with true by (symmetry; apply Z.ltb_lt; lia).
    reflexivity.
  - pose proof (walk_forward_unlimited w q p (Z.to_nat (maxrotate q + 1)) Hfwd)
      as Hf.
    rewrite Z2Nat.id in Hf by lia.
    replace (maxrotate q + 1 - 1) with (maxrotate q) in Hf by lia.
    rewrite Hf by lia.
    rewrite (walk_backward_unlimited w (mirror q) p (Z.to_nat (maxrotate q + 1)));
      [ |simpl; rewrite Hfwd; reflexivity|exact Hcont|lia|simpl; lia].
    rewrite Z2Nat.id by lia.
    apply flat_map_ext. intros r. symmetry.
    apply file_entries_mirror; assumption.
Qed.

Lemma C3_mirror_same_sequence_witness :
  let w := Sample.world (Sample.live_and_gz ["a,1"; "b,2"; "c,3"] ["0,z"; "a,0"]) in
  let q := Sample.query true (Some "a") (Some "b") 1 in
  (ParseRotatedLog w q default_logparserfn None None).2
  = (ParseRotatedLog w (mirror q) default_logparserfn None None).2.
Proof.
  intros w q.
  apply (C3_mirror_same_sequence _ w q default_logparserfn);
    [reflexivity..|].
  intros r r' Hr Hle Hmax Hloc. simpl in Hmax.
  assert (r = r') as <- by lia. exact Hloc.
Defined.

Example mirror_outcome :
  let w := Sample.world (Sample.live_and_gz ["a,1"; "b,2"; "c,3"] ["0,z"; "a,0"]) in
  let q := Sample.query true (Some "a") (Some "b") 1 in
  (ParseRotatedLog w q default_logparserfn None None).2
  = [("b", "2"); ("a", "1"); ("a", "0")]
  /\ (ParseRotatedLog w (mirror q) default_logparserfn None None).2
     = [("b", "2"); ("a", "1"); ("a", "0")].
Proof. vm_compute. split; reflexivity. Qed.

(** ** A window whose end lies before its start (C8) *)

Lemma string_compare_le_trans (a b c : string) :
  String.compare a b <> Gt -> String.compare b c <> Gt -> String.compare a c <> Gt.
Proof.
  revert b c. induction a as [|ca a IH]; intros [|cb b] [|cc c]; simpl;
    try congruence.
  unfold Ascii.compare.
  destruct (N.compare_spec (N_of_ascii ca) (N_of_ascii cb)),
           (N.compare_spec (N_of_ascii cb) (N_of_ascii cc)),
           (N.compare_spec (N_of_ascii ca) (N_of_ascii cc));
    try lia; try congruence.
  apply IH.
Qed.

Lemma string_compare_consistent : consistent_order String.compare.
Proof.
  split.
  - intros a b. apply String.compare_antisym.
  - apply string_compare_le_trans.
Qed.

Section EmptyWindow.

Variable w : World.
Variable q : Query.

Hypothesis Hmis : misordered w q.
Hypothesis Horder : consistent_order (awk_compare w).

(** No token is within a window whose end lies before its start. *)
Lemma misordered_window_empty (f1 : string) :
  cursor_bound w q f1 -> endcursor_bound w q f1 -> False.
Proof.
  destruct Hmis as (_ & _ & Hec). destruct Horder as [Hopp Htrans].
  unfold cursor_bound, endcursor_bound, tok_le, tok_lt, tok_ge, tok_gt.
  set (c := Py.str_of (cursor q)) in *.
  set (e := Py.str_of (endcursor q)) in *.
  cbv zeta in Hec.
  destruct (forward q); intros Hc He.
  - (* forward: c <= f1 <= e, yet e < c *)
    assert (Hcf : awk_compare w c f1 <> Gt).
    { rewrite (Hopp f1 c).
      destruct (includecursor q), (awk_compare w f1 c); simpl; congruence. }
    assert (Hfe : awk_compare w f1 e <> Gt)
      by (destruct (includeendcursor q); congruence).
    apply (Htrans c f1 e Hcf Hfe).
    rewrite (Hopp e c), Hec. reflexivity.
  - (* backward: e <= f1 <= c, yet c < e *)
    assert (Hef : awk_compare w e f1 <> Gt).
    { rewrite (Hopp f1 e).
      destruct (includeendcursor q), (awk_compare w f1 e); simpl; congruence. }
    assert (Hfc : awk_compare w f1 c <> Gt)
      by (destruct (includecursor q); congruence).
    apply (Htrans e f1 c Hef Hfc). exact Hec.
Qed.

Lemma misordered_selects_nothing (line : string) : selects w q line = false.
Proof.
  destruct (selects w q line) eqn:Hsel; [exfalso|reflexivity].
  destruct Hmis as (Hc & He & _).
  unfold selects in Hsel. rewrite Hc in Hsel.
  apply andb_true_iff in Hsel as [Hsel _].
  apply andb_true_iff in Hsel as [Hawk _].
  apply awk_program_bounds in Hawk as [Hcb Heb].
  exact (misordered_window_empty _ Hcb (Heb He)).
Qed.

End EmptyWindow.

(** A walk that starts in range probes the file system. *)
Lemma walk_probes
  {E : Type} (w : World) (q : Query) (p : Parser E) (rotate : Z)
  (limit : option Z) :
  out_of_range q rotate = false ->
  In (IsFile (determine_filename w q rotate).2) (walk w q p rotate limit).1.
Proof.
  intros Hin. rewrite walk_step, Hin.
  destruct (determine_filename w q rotate) as [probes filename]. simpl.
  destruct (files w filename) as [content|].
  - destruct (read_file w q p content limit) as [entries limit'].
    destruct (limit_open limit'); [destruct (walk _ _ _ _ _)|];
      simpl; apply in_or_app; right; left; reflexivity.
  - destruct (negb (forward q) && (0 <? rotate)); [|destruct (walk _ _ _ _ _)];
      simpl; apply in_or_app; right; left; reflexivity.
Qed.


(** With bounds that are plain text, a window misordered in the order of
    strings lets no line through awk. *)
Lemma misordered_textual_selects_nothing (w : World) (q : Query) (line : string) :
  misordered (lexicographic w) q ->
  awk_like (awk_compare w) ->
  textual_bounds q ->
  selects w q line = false.
Proof.
  intros Hmis Hlike Htext.
  assert (Hsame : selects w q line = selects (lexicographic w) q line).
  { unfold selects. rewrite (awk_program_textual w q line Hlike Htext).
    reflexivity. }
  rewrite Hsame.
  apply (misordered_selects_nothing (lexicographic w) q Hmis).
  apply string_compare_consistent.
Qed.



(** With numerals for bounds awk compares numbers, and the outcome differs:
    the window from [10] down to [9], misordered in the order of strings,
    returns both lines; the window from [9] down to [10], misordered for
    awk, returns the line [1a], which awk compares as a string. *)
Example misordered_numerals_outcome :
  let w := Sample.awk_world (Sample.live_only ["9,x"; "10,y"; "1a,z"]) in
  let q := Sample.query false (Some "10") (Some "9") 0 in
  let q' := Sample.query false (Some "9") (Some "10") 0 in
  misordered (lexicographic w) q
  /\ (ParseRotatedLog w q default_logparserfn None None).2
     = [("10", "y"); ("9", "x")]
  /\ misordered w q'
  /\ (ParseRotatedLog w q' default_logparserfn None None).2 = [("1a", "z")].
Proof. vm_compute. repeat split. Qed.

(** * Further properties of the code *)

(** ** The walk and the file system *)

Section WalkAndFiles.

Context {E : Type}.
Variable w : World.
Variable q : Query.
Variable logparserfn : Parser E.

Local Abbreviation eol := (entry_of_line logparserfn).
Local Abbreviation go := (walk w q logparserfn).

Lemma determine_filename_probes (rotate : Z) :
  opens (determine_filename w q rotate).1 = 0%nat /\
  forall path, ~ In (Open path) (determine_filename w q rotate).1.
Proof.
  unfold determine_filename.
  destruct (0 <? rotate); [destruct (isfile w _)|]; simpl;
    (split; [reflexivity|]); intros path H;
    repeat destruct H as [H|H]; try discriminate H; exact H.
Qed.

Lemma opens_app (io io' : list Event) :
  opens (io ++ io') = (opens io + opens io')%nat.
Proof. unfold opens. rewrite List.filter_app, length_app. reflexivity. Qed.

(** The walk opens at most one file per index it still has ahead. *)
Lemma walk_opens_le (rotate : Z) :
  forall limit, (opens (go rotate limit).1 <= indices_left q rotate)%nat.
Proof.
  pattern rotate. revert rotate.
  apply (walk_ind q). intros rotate IH limit.
  rewrite (walk_step w q logparserfn rotate limit).
  destruct (out_of_range q rotate) eqn:Hin; [unfold opens; simpl; lia|].
  specialize (IH eq_refl).
  pose proof (indices_left_next q rotate Hin) as Hnext.
  destruct (determine_filename_probes rotate) as [Hprobes _].
  destruct (determine_filename w q rotate) as [probes filename].
  simpl in Hprobes.
  destruct (files w filename) as [content|].
  - destruct (read_file w q logparserfn content limit) as [entries limit'].
    destruct (limit_open limit').
    + specialize (IH limit'). destruct (go (next_rotate q rotate) limit') as [io rl].
      simpl in *. rewrite opens_app, Hprobes.
      change (opens (IsFile filename :: Open filename :: io)) with (S (opens io)).
      lia.
    + simpl. rewrite opens_app, Hprobes.
      change (opens [IsFile filename; Open filename]) with 1%nat. lia.
  - destruct (negb (forward q) && (0 <? rotate)).
    + simpl. rewrite opens_app, Hprobes.
      change (opens [IsFile filename]) with 0%nat. lia.
    + specialize (IH limit). destruct (go (next_rotate q rotate) limit) as [io rl].
      simpl in *. rewrite opens_app, Hprobes.
      change (opens (IsFile filename :: io)) with (opens io). lia.
Qed.

(** Whatever the walk opens it has just probed, and it exists. *)
Lemma walk_open_after_probe (path : string) (rotate : Z) :
  forall limit,
    In (Open path) (go rotate limit).1 ->
    is_Some (files w path) /\
    exists before after,
      (go rotate limit).1 = before ++ IsFile path :: Open path :: after.
Proof.
  pattern rotate. revert rotate.
  apply (walk_ind q). intros rotate IH limit.
  rewrite (walk_step w q logparserfn rotate limit).
  destruct (out_of_range q rotate) eqn:Hin; [intros []|].
  specialize (IH eq_refl).
  destruct (determine_filename_probes rotate) as [_ Hprobes].
  destruct (determine_filename w q rotate) as [probes filename].
  simpl in Hprobes.
  assert (Hrec : forall limit' io rl,
             go (next_rotate q rotate) limit' = (io, rl) ->
             In (Open path) io ->
             forall prefix,
               is_Some (files w path) /\
               exists before after,
                 prefix ++ io = before ++ IsFile path :: Open path :: after).
  { intros limit' io rl Hgo Hio prefix.
    specialize (IH limit'). rewrite Hgo in IH. simpl in IH.
    destruct (IH Hio) as (Hsome & before & after & ->).
    split; [exact Hsome|].
    exists (prefix ++ before), after. rewrite <- app_assoc. reflexivity. }
  destruct (files w filename) as [content|] eqn:Hfile.
  - destruct (read_file w q logparserfn content limit) as [entries limit'].
    destruct (limit_open limit').
    + destruct (go (next_rotate q rotate) limit') as [io rl] eqn:Hgo.
      simpl. intros Hopen.
      apply in_app_or in Hopen as [Hopen|Hopen]; [destruct (Hprobes _ Hopen)|].
      destruct Hopen as [Hopen|[Hopen|Hopen]]; [discriminate Hopen| |].
      * injection Hopen as <-. split; [rewrite Hfile; eauto|].
        exists probes, io. reflexivity.
      * destruct (Hrec limit' io rl Hgo Hopen
                    (probes ++ [IsFile filename; Open filename]))
          as (Hsome & before & after & Heq).
        split; [exact Hsome|]. exists before, after.
        rewrite <- Heq, <- app_assoc. reflexivity.
    + simpl. intros Hopen.
      apply in_app_or in Hopen as [Hopen|Hopen]; [destruct (Hprobes _ Hopen)|].
      destruct Hopen as [Hopen|[Hopen|[]]]; [discriminate Hopen|].
      injection Hopen as <-. split; [rewrite Hfile; eauto|].
      exists probes, []. reflexivity.
  - destruct (negb (forward q) && (0 <? rotate)).
    + simpl. intros Hopen.
      apply in_app_or in Hopen as [Hopen|Hopen]; [destruct (Hprobes _ Hopen)|].
      destruct Hopen as [Hopen|[]]. discriminate Hopen.
    + destruct (go (next_rotate q rotate) limit) as [io rl] eqn:Hgo.
      simpl. intros Hopen.
      apply in_app_or in Hopen as [Hopen|Hopen]; [destruct (Hprobes _ Hopen)|].
      destruct Hopen as [Hopen|Hopen]; [discriminate Hopen|].
      destruct (Hrec limit io rl Hgo Hopen (probes ++ [IsFile filename]))
        as (Hsome & before & after & Heq).
      split; [exact Hsome|]. exists before, after.
      rewrite <- Heq, <- app_assoc. reflexivity.
Qed.

End WalkAndFiles.

(** X1.  A call opens at most one file per rotation index in range: never
    more than [maxrotate + 1] files, whatever the limit and the start
    index. *)
Theorem X1_opens_bounded
  (E : Type) (w : World) (q : Query) (p : Parser E) (rotate limit : option Z) :
  (opens (ParseRotatedLog w q p rotate limit).1 <= Z.to_nat (maxrotate q + 1))%nat.
Proof.
  unfold ParseRotatedLog.
  etransitivity; [apply walk_opens_le|].
  unfold indices_left.
  destruct (out_of_range q (first_rotate q rotate)) eqn:Hin; [lia|].
  apply out_of_range_false in Hin. destruct (forward q); lia.
Qed.

(** X2.  The call never opens a path that is no file: every [open] in its
    trace comes right after an [os.path.isfile] probe of the same path, and
    that path exists. *)
Theorem X2_open_only_after_probe
  (E : Type) (w : World) (q : Query) (p : Parser E) (rotate limit : option Z)
  (path : string) :
  In (Open path) (ParseRotatedLog w q p rotate limit).1 ->
  is_Some (files w path) /\
  exists before after,
    (ParseRotatedLog w q p rotate limit).1
    = before ++ IsFile path :: Open path :: after.
Proof. apply walk_open_after_probe. Qed.

Lemma X2_open_only_after_probe_witness :
  let w := Sample.world (Sample.live_and_gz ["a,1"] ["0,z"]) in
  let q := Sample.query false None None 3 in
  is_Some (files w "log.1.gz") /\
  exists before after,
    (ParseRotatedLog w q default_logparserfn None None).1
    = before ++ IsFile "log.1.gz" :: Open "log.1.gz" :: after.
Proof.
  intros w q.
  apply (X2_open_only_after_probe _ w q default_logparserfn None None "log.1.gz").
  vm_compute. auto 10.
Defined.

Section LocatedOnly.

Context {E : Type}.
Variable w : World.
Variable fs' : string -> option (list string).
Variable q : Query.
Variable logparserfn : Parser E.

Hypothesis Hsame :
  forall r, out_of_range q r = false ->
            located (with_files w fs') q r = located w q r.

Lemma walk_entries_located (rotate : Z) :
  forall limit,
    (walk (with_files w fs') q logparserfn rotate limit).2
    = (walk w q logparserfn rotate limit).2.
Proof.
  pattern rotate. revert rotate.
  apply (walk_ind q). intros rotate IH limit.
  rewrite (walk_entries (with_files w fs') q logparserfn rotate limit).
  rewrite (walk_entries w q logparserfn rotate limit).
  destruct (out_of_range q rotate) eqn:Hin; [reflexivity|].
  specialize (IH eq_refl). rewrite (Hsame rotate Hin).
  destruct (located w q rotate) as [content|].
  - change (pipeline (with_files w fs') q content limit)
      with (pipeline w q content limit).
    cbv zeta. rewrite IH. reflexivity.
  - rewrite IH. reflexivity.
Qed.

End LocatedOnly.

(** X3.  The entries depend on the file system only through the content
    found at each index in range: the same text served as [log.N.gz]
    instead of [log.N] gives the same entries. *)
Theorem X3_compressed_variant_same_entries
  (E : Type) (w : World) (fs' : string -> option (list string)) (q : Query)
  (p : Parser E) (rotate limit : option Z) :
  (forall r, out_of_range q r = false ->
             located (with_files w fs') q r = located w q r) ->
  (ParseRotatedLog (with_files w fs') q p rotate limit).2
  = (ParseRotatedLog w q p rotate limit).2.
Proof. intros Hsame. apply walk_entries_located, Hsame. Qed.

Lemma X3_compressed_variant_same_entries_witness :
  let plain := fun path : string =>
                 if String.eqb path "log" then Some ["b,2"]
                 else if String.eqb path "log.1" then Some ["0,z"; "a,1"]
                 else None in
  let q := Sample.query false None None 1 in
  (ParseRotatedLog
     (with_files (Sample.world plain) (Sample.live_and_gz ["b,2"] ["0,z"; "a,1"]))
     q default_logparserfn None (Some 2)).2
  = (ParseRotatedLog (Sample.world plain) q default_logparserfn None (Some 2)).2.
Proof.
  intros plain q.
  apply (X3_compressed_variant_same_entries _ (Sample.world plain)).
  intros r Hin. apply out_of_range_false in Hin. simpl in Hin.
  assert (r = 0 \/ r = 1) as [-> | ->] by lia; reflexivity.
Defined.

Section LimitZero.

Context {E : Type}.
Variable w : World.
Variable q : Query.
Variable p : Parser E.

(** With the limit at 0 the walk ends at the first file it finds: it opens
    that file and nothing before it. *)
Lemma walk_limit_zero_first_found (r : Z) (start : Z) :
  first_found w q start r ->
  exists before,
    (walk w q p start (Some 0)).1
    = before ++ [IsFile (determine_filename w q r).2;
                 Open (determine_filename w q r).2]
    /\ opens before = 0%nat.
Proof.
  pattern start. revert start.
  apply (walk_ind q). intros start IH (Hstart & Hr & Hsome & Hfirst).
  specialize (IH Hstart).
  rewrite (walk_step w q p start (Some 0)), Hstart.
  destruct (determine_filename_probes w q start) as [Hprobes _].
  destruct (located w q start) as [content|] eqn:Hloc.
  - (* the file at [start] exists: it is the first one *)
    assert (r = start) as ->.
    { destruct (Z.eq_dec r start) as [|Hne]; [assumption|exfalso].
      destruct (forward q).
      - destruct Hfirst as [Hle Hnone].
        rewrite (Hnone start) in Hloc by lia. discriminate Hloc.
      - destruct Hfirst as [Hle Hnone].
        destruct (Hnone start ltac:(lia)) as [Hnone' _].
        rewrite Hnone' in Hloc. discriminate Hloc. }
    unfold located in Hloc.
    destruct (determine_filename w q start) as [probes filename].
    simpl in Hloc, Hprobes |- *. rewrite Hloc.
    destruct (read_file_length w q p content 0 ltac:(lia)) as (es & -> & Hes).
    replace (0 - Z.of_nat (length es)) with 0 by lia.
    simpl. exists probes. split; [reflexivity|exact Hprobes].
  - (* missing: the walk goes on *)
    assert (Hne : r <> start).
    { intros ->. rewrite Hloc in Hsome. destruct Hsome as [? Hsome].
      discriminate Hsome. }
    apply out_of_range_false in Hstart, Hr.
    assert (Hgo : negb (forward q) && (0 <? start) = false).
    { destruct (forward q) eqn:Hfwd; [reflexivity|]. simpl.
      destruct Hfirst as [Hle Hnone].
      destruct (Hnone start ltac:(lia)) as [_ Hzero].
      apply Z.ltb_ge. exact Hzero. }
    assert (Hnext : first_found w q (next_rotate q start) r).
    { unfold first_found, next_rotate in *.
      split; [|split; [|split]].
      - apply out_of_range_false.
        destruct (forward q); destruct Hfirst as [Hle _]; lia.
      - apply out_of_range_false. exact Hr.
      - exact Hsome.
      - destruct (forward q); destruct Hfirst as [Hle Hnone];
          (split; [lia|]); intros r' Hr'; apply Hnone; lia. }
    destruct (IH Hnext) as (before & Htrace & Hopens).
    unfold located in Hloc.
    destruct (determine_filename w q start) as [probes filename].
    simpl in Hloc, Hprobes |- *. rewrite Hloc, Hgo.
    destruct (walk w q p (next_rotate q start) (Some 0)) as [io rl].
    simpl in Htrace |- *. subst io.
    exists (probes ++ IsFile filename :: before). split.
    + rewrite <- app_assoc. reflexivity.
    + rewrite opens_app, Hprobes.
      change (opens (IsFile filename :: before)) with (opens before).
      rewrite Hopens. reflexivity.
Qed.

End LimitZero.

(** X4.  With [limit=0] the call returns nothing and opens at most one
    file; and when its walk finds a file, the first one it finds is opened
    (and read to no effect): that open is the last thing the call does, and
    nothing is opened before it. *)
Theorem X4_limit_zero
  (E : Type) (w : World) (q : Query) (p : Parser E) (rotate : option Z) :
  (ParseRotatedLog w q p rotate (Some 0)).2 = []
  /\ (opens (ParseRotatedLog w q p rotate (Some 0%Z)).1 <= 1)%nat
  /\ (forall r : Z,
         first_found w q (first_rotate q rotate) r ->
         exists before,
           (ParseRotatedLog w q p rotate (Some 0)).1
           = before ++ [IsFile (determine_filename w q r).2;
                        Open (determine_filename w q r).2]
           /\ opens before = 0%nat).
Proof.
  unfold ParseRotatedLog. generalize (first_rotate q rotate). clear rotate.
  intros rotate. split; [|split].
  - pose proof (walk_length_le w q p rotate 0 ltac:(lia)) as Hlen.
    destruct (walk w q p rotate (Some 0)).2; [reflexivity|simpl in Hlen; lia].
  - pattern rotate. revert rotate.
    apply (walk_ind q). intros rotate IH.
    rewrite (walk_step w q p rotate (Some 0)).
    destruct (out_of_range q rotate) eqn:Hin; [unfold opens; simpl; lia|].
    specialize (IH eq_refl).
    destruct (determine_filename_probes w q rotate) as [Hprobes _].
    destruct (determine_filename w q rotate) as [probes filename].
    simpl in Hprobes.
    destruct (files w filename) as [content|].
    + destruct (read_file_length w q p content 0 ltac:(lia)) as (es & -> & Hes).
      replace (0 - Z.of_nat (length es)) with 0 by lia.
      simpl. rewrite opens_app, Hprobes. reflexivity.
    + destruct (negb (forward q) && (0 <? rotate)).
      * simpl. rewrite opens_app, Hprobes. unfold opens. simpl. lia.
      * destruct (walk w q p (next_rotate q rotate) (Some 0)) as [io rl].
        simpl in *. rewrite opens_app, Hprobes.
        change (opens (IsFile filename :: io)) with (opens io). lia.
  - intros r Hfound. apply walk_limit_zero_first_found, Hfound.
Qed.

Lemma X4_limit_zero_witness :
  let w := Sample.world (Sample.live_and_gz ["a,1"] ["0,z"]) in
  let q := Sample.query true None None 3 in
  exists before,
    (ParseRotatedLog w q default_logparserfn None (Some 0)).1
    = before ++ [IsFile "log.1.gz"; Open "log.1.gz"]
    /\ opens before = 0%nat.
Proof.
  intros w q.
  apply (proj2 (proj2 (X4_limit_zero _ w q default_logparserfn None)) 1).
  split; [reflexivity|]. split; [reflexivity|].
  split; [eexists; reflexivity|].
  change (1 <= 3 /\ forall r', 1 < r' <= 3 -> located w q r' = None).
  split; [lia|]. intros r' Hr'.
  assert (r' = 2 \/ r' = 3) as [-> | ->] by lia; reflexivity.
Defined.

Example limit_zero_outcome :
  ParseRotatedLog (Sample.world (Sample.live_and_gz ["a,1"] ["0,z"]))
    (Sample.query true None None 3) default_logparserfn None (Some 0)
  = ([IsFile "log.3"; IsFile "log.3.gz"; IsFile "log.2"; IsFile "log.2.gz";
      IsFile "log.1"; IsFile "log.1.gz"; Open "log.1.gz"], []).
Proof. vm_compute. reflexivity. Qed.

(** X5.  A backward call whose live file is missing does not stop there:
    after the one probe it goes on with index 1 (only a missing rotated
    file ends the walk). *)
Theorem X5_missing_live_file_is_skipped
  (E : Type) (w : World) (q : Query) (p : Parser E) (limit : option Z) :
  forward q = false ->
  0 <= maxrotate q ->
  files w (logfile q) = None ->
  ParseRotatedLog w q p None limit
  = (IsFile (logfile q) :: (walk w q p 1 limit).1, (walk w q p 1 limit).2).
Proof.
  intros Hbwd Hmax Hlive.
  unfold ParseRotatedLog, first_rotate. rewrite Hbwd.
  rewrite (walk_step w q p 0 limit).
  replace (out_of_range q 0) with false
    by (symmetry; apply out_of_range_false; lia).
  unfold determine_filename. simpl. rewrite Hlive, Hbwd. simpl.
  unfold next_rotate. rewrite Hbwd. change (0 + 1) with 1.
  destruct (walk w q p 1 limit). reflexivity.
Qed.

Lemma X5_missing_live_file_is_skipped_witness :
  let w := Sample.world
             (fun path => if String.eqb path "log.1" then Some ["a,1"] else None) in
  let q := Sample.query false None None 2 in
  ParseRotatedLog w q default_logparserfn None None
  = (IsFile (logfile q) :: (walk w q default_logparserfn 1 None).1,
     (walk w q default_logparserfn 1 None).2).
Proof.
  intros w q.
  apply (X5_missing_live_file_is_skipped _ w q default_logparserfn None);
    [reflexivity|simpl; lia|reflexivity].
Defined.

Example missing_live_outcome :
  ParseRotatedLog
    (Sample.world (fun path => if String.eqb path "log.1" then Some ["a,1"] else None))
    (Sample.query false None None 2) default_logparserfn None None
  = ([IsFile "log"; IsFile "log.1"; IsFile "log.1"; Open "log.1";
      IsFile "log.2"; IsFile "log.2.gz"], [("a", "1")]).
Proof. vm_compute. reflexivity. Qed.

Lemma walk_limit_reached
  {E : Type} (w : World) (q : Query) (p : Parser E) (rotate n : Z)
  (content : list string) :
  0 < n ->
  out_of_range q rotate = false ->
  located w q rotate = Some content ->
  Z.of_nat (length (pipeline w q content (Some n))) = n ->
  (forall line, In line (pipeline w q content (Some n)) ->
                is_Some (entry_of_line p line)) ->
  walk w q p rotate (Some n)
  = ((determine_filename w q rotate).1
       ++ [IsFile (determine_filename w q rotate).2;
           Open (determine_filename w q rotate).2],
     omap (entry_of_line p) (rev (pipeline w q content (Some n)))).
Proof.
  intros Hn Hin Hloc Hlen Hall.
  rewrite (walk_step w q p rotate (Some n)), Hin.
  unfold located in Hloc.
  destruct (determine_filename w q rotate) as [probes filename].
  simpl in Hloc. rewrite Hloc, read_file_spec. cbv zeta.
  assert (Hcount : length (omap (entry_of_line p)
                             (rev (pipeline w q content (Some n))))
                   = Z.to_nat n).
  { rewrite omap_length_all.
    - rewrite length_rev. lia.
    - intros line Hline. apply Hall, in_rev, Hline. }
  assert (Htaken : taken (Some n)
                     (omap (entry_of_line p) (rev (pipeline w q content (Some n))))
                   = omap (entry_of_line p) (rev (pipeline w q content (Some n)))).
  { unfold taken. apply take_ge. lia. }
  rewrite Htaken, Hcount. unfold remaining.
  replace (n - Z.of_nat (Z.to_nat n)) with 0 by lia.
  reflexivity.
Qed.

(** X6.  Once a file fills the limit the walk ends there: when the [n >= 1]
    lines that [tail]/[head] keep all yield entries, the call at that index
    returns exactly these [n] entries and probes no further index. *)
Theorem X6_limit_reached_stops
  (E : Type) (w : World) (q : Query) (p : Parser E) (rotate n : Z)
  (content : list string) :
  0 < n ->
  out_of_range q rotate = false ->
  located w q rotate = Some content ->
  Z.of_nat (length (pipeline w q content (Some n))) = n ->
  (forall line, In line (pipeline w q content (Some n)) ->
                is_Some (entry_of_line p line)) ->
  walk w q p rotate (Some n)
  = ((determine_filename w q rotate).1
       ++ [IsFile (determine_filename w q rotate).2;
           Open (determine_filename w q rotate).2],
     omap (entry_of_line p) (rev (pipeline w q content (Some n)))).
Proof. apply walk_limit_reached. Qed.

Lemma X6_limit_reached_stops_witness :
  let w := Sample.world (Sample.live_and_gz ["a,1"; "b,2"; "c,3"] ["0,z"]) in
  let q := Sample.query false None None 3 in
  walk w q default_logparserfn 0 (Some 2)
  = ((determine_filename w q 0).1
       ++ [IsFile (determine_filename w q 0).2; Open (determine_filename w q 0).2],
     omap (entry_of_line default_logparserfn)
       (rev (pipeline w q ["a,1"; "b,2"; "c,3"] (Some 2)))).
Proof.
  intros w q.
  apply (X6_limit_reached_stops _ w q default_logparserfn 0 2 ["a,1"; "b,2"; "c,3"]);
    [lia|reflexivity|reflexivity|reflexivity|].
  intros line Hline. vm_compute in Hline.
  repeat destruct Hline as [<-|Hline]; try contradiction; eexists; reflexivity.
Defined.

(** ** What a query without limit returns *)

Lemma forward_unlimited_entries
  {E : Type} (w : World) (q : Query) (p : Parser E) :
  forward q = true ->
  0 <= maxrotate q ->
  (walk w q p (maxrotate q) None).2
  = flat_map (file_entries w q p) (seqZ 0 (maxrotate q + 1)).
Proof.
  intros Hfwd Hmax.
  pose proof (walk_forward_unlimited w q p (Z.to_nat (maxrotate q + 1)) Hfwd) as Hf.
  rewrite Z2Nat.id in Hf by lia.
  replace (maxrotate q + 1 - 1) with (maxrotate q) in Hf by lia.
  apply Hf. lia.
Qed.

(** X7.  A forward call without limit returns the entries of every file in
    range, missing indices being skipped: the files from the live one to
    the oldest, each read last line first, one after the other. *)
Theorem X7_forward_reads_every_file
  (E : Type) (w : World) (q : Query) (p : Parser E) :
  forward q = true ->
  0 <= maxrotate q ->
  (ParseRotatedLog w q p None None).2
  = flat_map (file_entries w q p) (seqZ 0 (maxrotate q + 1)).
Proof.
  intros Hfwd Hmax. unfold ParseRotatedLog, first_rotate. rewrite Hfwd.
  apply forward_unlimited_entries; assumption.
Qed.

Lemma X7_forward_reads_every_file_witness :
  let w := Sample.world (Sample.gap_at_2 ["a,1"; "b,2"] ["0,z"] ["x,3"]) in
  let q := Sample.query true None None 5 in
  (ParseRotatedLog w q default_logparserfn None None).2
  = flat_map (file_entries w q default_logparserfn) (seqZ 0 (maxrotate q + 1)).
Proof.
  intros w q.
  apply (X7_forward_reads_every_file _ w q default_logparserfn);
    [reflexivity|simpl; lia].
Defined.

Example forward_over_gap_outcome :
  (ParseRotatedLog
     (Sample.world (Sample.gap_at_2 ["a,1"; "b,2"] ["0,z"] ["x,3"]))
     (Sample.query true None None 5) default_logparserfn None None).2
  = [("b", "2"); ("a", "1"); ("0", "z"); ("x", "3")].
Proof. vm_compute. reflexivity. Qed.

Section BackwardToGap.

Context {E : Type}.
Variable w : World.
Variable q : Query.
Variable logparserfn : Parser E.
Variable gap : Z.

Hypothesis Hbackward : forward q = false.
Hypothesis Hgap : 0 < gap <= maxrotate q + 1.
Hypothesis Hpresent : forall r, 0 < r < gap -> is_Some (located w q r).
Hypothesis Hmissing : gap <= maxrotate q -> located w q gap = None.

Lemma walk_backward_to_gap (n : nat) :
  forall rotate,
    0 <= rotate ->
    rotate + Z.of_nat n = gap ->
    (walk w q logparserfn rotate None).2
    = flat_map (file_entries w q logparserfn) (seqZ rotate (Z.of_nat n)).
Proof.
  induction n as [|n IH]; intros rotate Hpos Hsum.
  - assert (rotate = gap) as -> by lia.
    destruct (out_of_range q gap) eqn:Hin.
    + rewrite (walk_entries w q logparserfn gap None), Hin. reflexivity.
    + apply out_of_range_false in Hin as Hrange.
      rewrite walk_unlimited_step by exact Hin.
      rewrite Hbackward, Hmissing by lia.
      destruct (Z.ltb_spec 0 gap); [reflexivity|lia].
  - rewrite walk_unlimited_step by (apply out_of_range_false; lia).
    rewrite Hbackward, seqZ_cons by lia. simpl flat_map.
    replace (Z.pred (Z.of_nat (S n))) with (Z.of_nat n) by lia.
    change (Z.succ rotate) with (rotate + 1).
    rewrite <- (IH (rotate + 1)) by lia.
    destruct (located w q rotate) as [content|] eqn:Hloc; [reflexivity|].
    rewrite (file_entries_missing w q logparserfn rotate Hloc). simpl.
    destruct (Z.ltb_spec 0 rotate) as [Hgt|Hzero]; [|reflexivity].
    destruct (Hpresent rotate ltac:(lia)) as [content Hsome]. congruence.
Qed.

End BackwardToGap.

(** X8.  A backward call without limit returns the entries of the files up
    to the first missing rotation and nothing of what lies behind it: with
    [gap] the first index above 0 whose file is missing (or [maxrotate + 1]
    when none is), the files [0 .. gap-1], newest first. *)
Theorem X8_backward_reads_up_to_gap
  (E : Type) (w : World) (q : Query) (p : Parser E) (gap : Z) :
  forward q = false ->
  0 < gap <= maxrotate q + 1 ->
  (forall r, 0 < r < gap -> is_Some (located w q r)) ->
  (gap <= maxrotate q -> located w q gap = None) ->
  (ParseRotatedLog w q p None None).2
  = flat_map (file_entries w q p) (seqZ 0 gap).
Proof.
  intros Hbwd Hgap Hpresent Hmissing.
  unfold ParseRotatedLog, first_rotate. rewrite Hbwd.
  pose proof (walk_backward_to_gap w q p gap Hbwd Hgap Hpresent Hmissing
                (Z.to_nat gap) 0) as Hwalk.
  rewrite Z2Nat.id in Hwalk by lia.
  apply Hwalk; lia.
Qed.

Lemma X8_backward_reads_up_to_gap_witness :
  let w := Sample.world (Sample.gap_at_2 ["a,1"; "b,2"] ["0,z"] ["x,3"]) in
  let q := Sample.query false None None 5 in
  (ParseRotatedLog w q default_logparserfn None None).2
  = flat_map (file_entries w q default_logparserfn) (seqZ 0 2).
Proof.
  intros w q.
  apply (X8_backward_reads_up_to_gap _ w q default_logparserfn 2).
  - reflexivity.
  - simpl. lia.
  - intros r Hr. assert (r = 1) as -> by lia. eexists. reflexivity.
  - intros _. reflexivity.
Defined.

(** X9.  Completeness of a forward call without limit: an entry is returned
    exactly when some line of a file located in range passes every filter
    and yields that entry. *)
Theorem X9_forward_returns_exactly_the_selected_lines
  (E : Type) (w : World) (q : Query) (p : Parser E) (e : E) :
  forward q = true ->
  In e (ParseRotatedLog w q p None None).2 <->
  exists (r : Z) (content : list string) (line : string),
    out_of_range q r = false /\
    located w q r = Some content /\
    In line content /\
    selects w q (Coreutils.delete_nul line) = true /\
    entry_of_line p (Coreutils.delete_nul line) = Some e.
Proof.
  intros Hfwd. split.
  - apply walk_provenance.
  - intros (r & content & line & Hin & Hloc & Hline & Hsel & Hparse).
    apply out_of_range_false in Hin.
    unfold ParseRotatedLog, first_rotate. rewrite Hfwd.
    rewrite forward_unlimited_entries by (assumption || lia).
    apply in_flat_map. exists r. split.
    + apply list_elem_of_In, elem_of_seqZ. lia.
    + rewrite (file_entries_located w q p r content Hloc), pipeline_unlimited.
      apply list_elem_of_In, list_elem_of_omap.
      exists (Coreutils.delete_nul line). split; [|exact Hparse].
      apply list_elem_of_In. rewrite <- in_rev.
      apply filter_In. split; [|exact Hsel].
      apply in_map, Hline.
Qed.

Lemma X9_forward_returns_exactly_the_selected_lines_witness :
  let w := Sample.world (Sample.gap_at_2 ["a,1"; "b,2"] ["0,z"] ["x,3"]) in
  let q := Sample.query true None None 5 in
  In ("x", "3") (ParseRotatedLog w q default_logparserfn None None).2 <->
  exists (r : Z) (content : list string) (line : string),
    out_of_range q r = false /\
    located w q r = Some content /\
    In line content /\
    selects w q (Coreutils.delete_nul line) = true /\
    entry_of_line default_logparserfn (Coreutils.delete_nul line) = Some ("x", "3").
Proof.
  intros w q.
  apply (X9_forward_returns_exactly_the_selected_lines _ w q default_logparserfn).
  reflexivity.
Defined.

(** X10.  The pattern filters are conjunctive: every returned entry comes
    from a line that each [grep] of [greps] prints and, when a keyword is
    given, that [grep -Fi keyword] prints as well. *)
Theorem X10_every_grep_selects
  (E : Type) (w : World) (q : Query) (p : Parser E) (rotate limit : option Z)
  (e : E) :
  In e (ParseRotatedLog w q p rotate limit).2 ->
  exists line : string,
    entry_of_line p line = Some e /\
    (forall args, In args (greps q) -> grep_selects w args line = true) /\
    (Py.truthy (keyword q) = true ->
     grep_selects w ["-Fi"; Py.str_of (keyword q)] line = true).
Proof.
  intros Hin. unfold ParseRotatedLog in Hin.
  apply walk_provenance in Hin as (r & content & line & _ & _ & _ & Hsel & Hparse).
  exists (Coreutils.delete_nul line). split; [exact Hparse|].
  unfold selects in Hsel.
  apply andb_true_iff in Hsel as [Hsel Hkey].
  apply andb_true_iff in Hsel as [_ Hgreps].
  split.
  - intros args Hargs. rewrite forallb_forall in Hgreps. apply Hgreps, Hargs.
  - intros Htruthy. rewrite Htruthy in Hkey. exact Hkey.
Qed.

Lemma X10_every_grep_selects_witness :
  let w := Sample.world (Sample.live_only ["a,1 ok"; "b,2 ok"]) in
  let q := {| logfile := "log"; maxrotate := 0;
              cursor := None; includecursor := false;
              endcursor := None; includeendcursor := false;
              forward := false; greps := [["-v"; "debug"]; ["ok"]];
              keyword := Some "OK" |} in
  exists line : string,
    entry_of_line default_logparserfn line = Some ("b", "2 ok") /\
    (forall args, In args (greps q) -> grep_selects w args line = true) /\
    (Py.truthy (keyword q) = true ->
     grep_selects w ["-Fi"; Py.str_of (keyword q)] line = true).
Proof.
  intros w q.
  apply (X10_every_grep_selects _ w q default_logparserfn None None ("b", "2 ok")).
  vm_compute. auto.
Defined.

(** ** What the parser is given *)

Lemma has_char_app (c : ascii) (a b : string) :
  has_char c (a +:+ b) = has_char c a || has_char c b.
Proof.
  induction a as [|d a IH]; simpl; [reflexivity|].
  rewrite IH, orb_assoc. reflexivity.
Qed.

Lemma cut_parts (sep : ascii) (s a b : string) :
  Py.cut sep s = Some (a, b) ->
  s = a +:+ String sep b /\ has_char sep a = false.
Proof.
  revert a. induction s as [|c s IH]; intros a; simpl; [discriminate|].
  destruct (Ascii.eqb c sep) eqn:Hc.
  - apply Ascii.eqb_eq in Hc as ->. intros [= <- <-]. split; reflexivity.
  - destruct (Py.cut sep s) as [[a0 b0]|]; [|discriminate].
    intros [= <- <-]. destruct (IH a0 eq_refl) as [-> Ha0].
    simpl. rewrite Hc, Ha0. split; reflexivity.
Qed.

Lemma cut_None_has_char (sep : ascii) (s : string) :
  Py.cut sep s = None <-> has_char sep s = false.
Proof.
  induction s as [|c s IH]; simpl; [tauto|].
  destruct (Ascii.eqb c sep); simpl; [split; discriminate|].
  rewrite <- IH. destruct (Py.cut sep s) as [[a b]|]; split; congruence.
Qed.

Lemma has_char_lstrip (c : ascii) (s : string) :
  has_char c s = false -> has_char c (Py.lstrip s) = false.
Proof.
  induction s as [|d s IH]; simpl; [reflexivity|].
  intros H. apply orb_false_iff in H as [Hd Hs].
  destruct (Py.isspace d); [apply IH, Hs|].
  simpl. rewrite Hd, Hs. reflexivity.
Qed.

Lemma has_char_rstrip (c : ascii) (s : string) :
  has_char c s = false -> has_char c (Py.rstrip s) = false.
Proof.
  induction s as [|d s IH]; [reflexivity|].
  rewrite PyFacts.rstrip_cons. simpl has_char at 1.
  intros H. apply orb_false_iff in H as [Hd Hs]. specialize (IH Hs).
  destruct (String.length (Py.rstrip s) =? 0)%nat.
  - destruct (Py.isspace d); simpl; [reflexivity|]. rewrite Hd. reflexivity.
  - simpl. rewrite Hd, IH. reflexivity.
Qed.

Lemma has_char_strip (c : ascii) (s : string) :
  has_char c s = false -> has_char c (Py.strip s) = false.
Proof. intros H. apply has_char_lstrip, has_char_rstrip, H. Qed.

Lemma strip_idemp (s : string) : Py.strip (Py.strip s) = Py.strip s.
Proof.
  unfold Py.strip at 2.
  rewrite PyFacts.strip_lstrip, PyFacts.strip_rstrip. reflexivity.
Qed.

Lemma delete_nul_clean (s : string) :
  has_char Ascii.zero (Coreutils.delete_nul s) = false.
Proof.
  induction s as [|c s IH]; simpl; [reflexivity|].
  destruct (Ascii.eqb c Ascii.zero) eqn:Hc; [exact IH|].
  simpl. rewrite Hc, IH. reflexivity.
Qed.

(** X11.  [line.split(',', 1)] loses nothing: a line without comma comes
    back whole, and otherwise the two parts joined by a comma are the line
    again, the first part holding no comma. *)
Theorem X11_split_comma_round_trip (s : string) :
  (has_char "," s = false -> Py.split_comma1 s = [s]) /\
  (has_char "," s = true ->
   exists a b, Py.split_comma1 s = [a; b] /\
               s = a +:+ "," +:+ b /\
               has_char "," a = false).
Proof.
  unfold Py.split_comma1. split; intros Hs.
  - apply cut_None_has_char in Hs. rewrite Hs. reflexivity.
  - destruct (Py.cut "," s) as [[a b]|] eqn:Hcut.
    + exists a, b. destruct (cut_parts _ _ _ _ Hcut) as [Heq Ha]. auto.
    + apply cut_None_has_char in Hcut. congruence.
Qed.

Lemma X11_split_comma_round_trip_witness :
  Py.split_comma1 "no separator" = ["no separator"] /\
  exists a b, Py.split_comma1 "2024-01-01T00:00:02,B,C" = [a; b] /\
              "2024-01-01T00:00:02,B,C" = a +:+ "," +:+ b /\
              has_char "," a = false.
Proof.
  split.
  - apply (proj1 (X11_split_comma_round_trip "no separator")). reflexivity.
  - apply (proj2 (X11_split_comma_round_trip "2024-01-01T00:00:02,B,C")).
    reflexivity.
Defined.

(** X12.  Every returned entry was made by the parser from a token and a
    payload that are clean: both stripped of surrounding whitespace, both
    free of NUL bytes, and the token without any comma. *)
Theorem X12_parser_arguments_are_clean
  (E : Type) (w : World) (q : Query) (p : Parser E) (rotate limit : option Z)
  (e : E) :
  In e (ParseRotatedLog w q p rotate limit).2 ->
  exists token payload : string,
    p token payload = Returned e /\
    Py.strip token = token /\
    Py.strip payload = payload /\
    has_char "," token = false /\
    has_char Ascii.zero token = false /\
    has_char Ascii.zero payload = false.
Proof.
  intros Hin. unfold ParseRotatedLog in Hin.
  apply walk_provenance in Hin as (r & content & line & _ & _ & _ & _ & Hparse).
  rewrite entry_of_line_cut in Hparse.
  destruct (Py.cut "," (Coreutils.delete_nul line)) as [[a b]|] eqn:Hcut;
    [|discriminate].
  destruct (cut_parts _ _ _ _ Hcut) as [Heq Hcomma].
  pose proof (delete_nul_clean line) as Hnul.
  rewrite Heq, has_char_app in Hnul.
  apply orb_false_iff in Hnul as [Hnul_a Hnul_b].
  simpl in Hnul_b.
  exists (Py.strip a), (Py.strip b). repeat split.
  - destruct (p (Py.strip a) (Py.strip b)); congruence.
  - apply strip_idemp.
  - apply strip_idemp.
  - apply has_char_strip, Hcomma.
  - apply has_char_strip, Hnul_a.
  - apply has_char_strip, Hnul_b.
Qed.

Lemma X12_parser_arguments_are_clean_witness :
  let w := Sample.world (Sample.live_only [" a , 1 "; "b,2,3"]) in
  let q := Sample.query false None None 0 in
  exists token payload : string,
    default_logparserfn token payload = Returned ("a", "1") /\
    Py.strip token = token /\
    Py.strip payload = payload /\
    has_char "," token = false /\
    has_char Ascii.zero token = false /\
    has_char Ascii.zero payload = false.
Proof.
  intros w q.
  apply (X12_parser_arguments_are_clean _ w q default_logparserfn None None ("a", "1")).
  vm_compute. auto.
Defined.

(** ** The latest order cycle *)

Section LatestOrderCycle.

Context {J : Type}.
Variable w : World.
Variable logFile : string.
Variable loads : string -> option J.

Local Abbreviation q := (order_cycle_query logFile).
Local Abbreviation parser := (order_cycle_parser loads).

(** With the defaults of the call and [limit=1] the pipeline hands on the
    last line of the file and nothing else. *)
Lemma order_cycle_pipeline (content : list string) (last : string) :
  pipeline w q (content ++ [last]) (Some 1) = [Coreutils.delete_nul last].
Proof.
  unfold pipeline, keyword_stage, grep_stage, cursor_stage, limit_stage.
  simpl. unfold Coreutils.tail_n, Coreutils.last_n, Coreutils.tr_d_nul.
  rewrite map_app, length_app, length_map. simpl.
  replace (length content + 1 - Z.to_nat (Z.abs 1))%nat
    with (length (map Coreutils.delete_nul content))
    by (rewrite length_map; lia).
  apply drop_app_length.
Qed.

Lemma order_cycle_pipeline_empty : pipeline w q [] (Some 1) = [].
Proof. reflexivity. Qed.

Lemma order_cycle_live (content : list string) :
  files w logFile = Some content ->
  out_of_range q 0 = false /\ located w q 0 = Some content.
Proof. intros Hlive. split; [reflexivity|exact Hlive]. Qed.

(** When the live file gives no entry the call goes on with index 1 and
    the limit still at 1. *)
Lemma order_cycle_falls_through (content : list string) :
  files w logFile = Some content ->
  omap (entry_of_line parser) (rev (pipeline w q content (Some 1))) = [] ->
  (walk w q parser 0 (Some 1)).2 = (walk w q parser 1 (Some 1)).2.
Proof.
  intros Hlive Hnone.
  rewrite (walk_entries w q parser 0 (Some 1)).
  destruct (order_cycle_live content Hlive) as [-> ->].
  cbv zeta. rewrite Hnone. reflexivity.
Qed.

End LatestOrderCycle.

(** X13.  The caller's [ParseRotatedLog(logFile, logparserfn=..., limit=1)[0][1]]:
    when the last line of the live file has a comma and the text after it
    is JSON, the expression is that JSON value, and only the live file was
    touched. *)
Theorem X13_latest_order_cycle_is_last_line
  (J : Type) (w : World) (logFile : string) (loads : string -> option J)
  (content : list string) (last token payload : string) (value : J) :
  files w logFile = Some (content ++ [last]) ->
  Py.cut "," (Coreutils.delete_nul last) = Some (token, payload) ->
  loads (Py.strip payload) = Some value ->
  latest_order_cycle w logFile loads = Some value
  /\ (ParseRotatedLog w (order_cycle_query logFile) (order_cycle_parser loads)
        None (Some 1)).1
     = [IsFile logFile; Open logFile].
Proof.
  intros Hlive Hcut Hloads.
  assert (Hparse : entry_of_line (order_cycle_parser loads)
                     (Coreutils.delete_nul last)
                   = Some (Py.strip token, value)).
  { rewrite entry_of_line_cut, Hcut. unfold order_cycle_parser.
    rewrite Hloads. reflexivity. }
  assert (Hwalk : walk w (order_cycle_query logFile) (order_cycle_parser loads)
                    0 (Some 1)
                  = ([IsFile logFile; Open logFile], [(Py.strip token, value)])).
  { rewrite (walk_limit_reached w (order_cycle_query logFile)
               (order_cycle_parser loads) 0 1 (content ++ [last]));
      try rewrite order_cycle_pipeline.
    - simpl. cbn. rewrite Hparse. reflexivity.
    - lia.
    - reflexivity.
    - exact Hlive.
    - reflexivity.
    - intros line [<-|[]]. rewrite Hparse. eauto. }
  unfold latest_order_cycle, ParseRotatedLog. simpl first_rotate.
  rewrite Hwalk. split; reflexivity.
Qed.

Lemma X13_latest_order_cycle_is_last_line_witness :
  let w := Sample.world (Sample.live_only ["t1,{old}"; "t2,{new}"]) in
  let loads := fun text : string =>
                 if String.eqb text "" then None else Some text in
  latest_order_cycle w "log" loads = Some "{new}"
  /\ (ParseRotatedLog w (order_cycle_query "log") (order_cycle_parser loads)
        None (Some 1)).1
     = [IsFile "log"; Open "log"].
Proof.
  intros w loads.
  apply (X13_latest_order_cycle_is_last_line _ w "log" loads
           ["t1,{old}"] "t2,{new}" "t2" "{new}" "{new}"); reflexivity.
Defined.

(** X14.  When the last line of the live file yields no entry (it is blank,
    has no comma, or its payload is no JSON), or the file is empty, none of
    its other lines is looked at: the caller's query returns what the walk
    from index 1 returns. *)
Theorem X14_latest_order_cycle_skips_live_file
  (J : Type) (w : World) (logFile : string) (loads : string -> option J)
  (content : list string) :
  files w logFile = Some content ->
  (content = [] \/
   exists init last,
     content = init ++ [last] /\
     entry_of_line (order_cycle_parser loads) (Coreutils.delete_nul last) = None) ->
  (ParseRotatedLog w (order_cycle_query logFile) (order_cycle_parser loads)
     None (Some 1)).2
  = (walk w (order_cycle_query logFile) (order_cycle_parser loads) 1 (Some 1)).2.
Proof.
  intros Hlive Hlast. unfold ParseRotatedLog. simpl first_rotate.
  apply (order_cycle_falls_through w logFile loads content Hlive).
  destruct Hlast as [->|(init & last & -> & Hnone)].
  - reflexivity.
  - rewrite order_cycle_pipeline. simpl. cbn. rewrite Hnone. reflexivity.
Qed.

Lemma X14_latest_order_cycle_skips_live_file_witness :
  let w := Sample.world (Sample.live_and_gz ["t2,{new}"; "t3,{newest}"; ""] ["t1,{old}"]) in
  let loads := fun text : string =>
                 if String.eqb text "" then None else Some text in
  (ParseRotatedLog w (order_cycle_query "log") (order_cycle_parser loads)
     None (Some 1)).2
  = (walk w (order_cycle_query "log") (order_cycle_parser loads) 1 (Some 1)).2.
Proof.
  intros w loads.
  apply (X14_latest_order_cycle_skips_live_file _ w "log" loads
           ["t2,{new}"; "t3,{newest}"; ""]); [reflexivity|].
  right. exists ["t2,{new}"; "t3,{newest}"], "". split; reflexivity.
Defined.

Example latest_order_cycle_skips :
  latest_order_cycle
    (Sample.world (Sample.live_and_gz ["t2,{new}"; "t3,{newest}"; ""] ["t1,{old}"]))
    "log" (fun text => if String.eqb text "" then None else Some text)
  = Some "{old}".
Proof. vm_compute. reflexivity. Qed.

(** X15.  The caller's expression raises [IndexError] when there is nothing
    to return: with the live file missing or empty and rotation 1 missing
    in both variants the result is empty and [[0]] fails. *)
Theorem X15_latest_order_cycle_index_error
  (J : Type) (w : World) (logFile : string) (loads : string -> option J) :
  (files w logFile = None \/ files w logFile = Some []) ->
  files w (rotated_name (order_cycle_query logFile) 1) = None ->
  files w (rotated_name (order_cycle_query logFile) 1 +:+ ".gz") = None ->
  latest_order_cycle w logFile loads = None.
Proof.
  intros Hlive Hplain Hgz.
  assert (Hone : (walk w (order_cycle_query logFile) (order_cycle_parser loads)
                    1 (Some 1)).2 = []).
  { rewrite (walk_backward_missing w (order_cycle_query logFile)
               (order_cycle_parser loads) 1 (Some 1));
      [reflexivity|reflexivity|simpl; lia|exact Hplain|exact Hgz]. }
  unfold latest_order_cycle, ParseRotatedLog. simpl first_rotate.
  destruct Hlive as [Hlive|Hlive].
  - rewrite (walk_entries w (order_cycle_query logFile)
               (order_cycle_parser loads) 0 (Some 1)).
    change (located w (order_cycle_query logFile) 0) with (files w logFile).
    rewrite Hlive. simpl.
    change (next_rotate (order_cycle_query logFile) 0) with 1.
    rewrite Hone. reflexivity.
  - rewrite (order_cycle_falls_through w logFile loads [] Hlive eq_refl).
    rewrite Hone. reflexivity.
Qed.

Lemma X15_latest_order_cycle_index_error_witness :
  latest_order_cycle
    (Sample.world (Sample.live_only []))
    "log" (fun text : string => Some text)
  = None.
Proof.
  apply (X15_latest_order_cycle_index_error _
           (Sample.world (Sample.live_only [])) "log");
    [right; reflexivity|reflexivity|reflexivity].
Defined.

(** ** The start/stop handshake *)

Lemma request_command (command pid : string) :
  item (request command pid) "command" = Done (JString command).
Proof. unfold item, request. rewrite lookup_insert_eq. reflexivity. Qed.

Lemma request_id (command pid : string) :
  item (request command pid) "id" = Done (JString pid).
Proof.
  unfold item, request.
  rewrite lookup_insert_ne by discriminate.
  rewrite lookup_insert_eq. reflexivity.
Qed.

Lemma failure_command (message : gmap string json) :
  item (<["command" := JString "FAILURE"]> message) "command"
  = Done (JString "FAILURE").
Proof. unfold item. rewrite lookup_insert_eq. reflexivity. Qed.

(** A client that gets its own request back reports success. *)
Lemma SendReceive_echo (command pid : string) :
  SendReceive (request command pid) (Some (request command pid)) = Done true.
Proof.
  unfold SendReceive. rewrite request_command, request_id.
  rewrite !bool_decide_eq_true_2 by reflexivity. reflexivity.
Qed.

(** X16.  A start request is acknowledged exactly when the server ends up
    running: the server without sync client always starts; the server with
    one starts only if the start call on it succeeded, and otherwise
    answers [FAILURE], which the client reads as [False]. *)
Theorem X16_start_acknowledged_iff_running
  (sync : option bool) (running : bool) (pid : string) :
  exists h : Handled,
    handle sync running (request "Start" pid) = Done h /\
    should_run h = default true sync /\
    SendReceive (request "Start" pid) (Some (reply h)) = Done (should_run h).
Proof.
  unfold handle. rewrite request_command.
  rewrite bool_decide_eq_true_2 by reflexivity.
  destruct sync as [[|]|]; eexists; (split; [reflexivity|]); simpl;
    (split; [reflexivity|]).
  - apply SendReceive_echo.
  - unfold SendReceive. rewrite failure_command, request_command.
    rewrite bool_decide_eq_false_2 by discriminate. reflexivity.
  - apply SendReceive_echo.
Qed.

Lemma handle_stop (sync : option bool) (running : bool) (pid : string) :
  handle sync running (request "Stop" pid)
  = Done {| should_run := false;
            reply := request "Stop" pid;
            forwarded := match sync with Some _ => ["Stop"] | None => [] end |}.
Proof.
  unfold handle. rewrite request_command.
  rewrite bool_decide_eq_false_2 by discriminate.
  rewrite bool_decide_eq_true_2 by reflexivity.
  reflexivity.
Qed.

(** X17.  A stop request always switches the flag off, is passed on to the
    sync client when there is one, and is acknowledged. *)
Theorem X17_stop_always_acknowledged
  (sync : option bool) (running : bool) (pid : string) :
  exists h : Handled,
    handle sync running (request "Stop" pid) = Done h /\
    should_run h = false /\
    forwarded h = match sync with Some _ => ["Stop"] | None => [] end /\
    SendReceive (request "Stop" pid) (Some (reply h)) = Done true.
Proof.
  eexists. split; [apply handle_stop|]. simpl.
  split; [reflexivity|]. split; [reflexivity|].
  apply SendReceive_echo.
Qed.

(** X18.  The reply is the request sent back: whatever the message, every
    field but [command] comes back unchanged, and [command] comes back
    unchanged or as [FAILURE]. *)
Theorem X18_reply_echoes_request
  (sync : option bool) (running : bool) (message : gmap string json)
  (h : Handled) :
  handle sync running message = Done h ->
  (forall key, key <> "command" -> reply h !! key = message !! key) /\
  (reply h !! "command" = message !! "command" \/
   reply h !! "command" = Some (JString "FAILURE")).
Proof.
  unfold handle, item.
  destruct (message !! "command") as [command|] eqn:Hcommand; [|discriminate].
  destruct (bool_decide (command = JString "Start")).
  - destruct sync as [[|]|]; intros [= <-]; simpl;
      try (split; [intros; reflexivity|left; assumption]).
    split.
    + intros key Hkey. apply lookup_insert_ne. congruence.
    + right. apply lookup_insert_eq.
  - destruct (bool_decide (command = JString "Stop")); intros [= <-]; simpl;
      (split; [intros; reflexivity|left; assumption]).
Qed.

Lemma X18_reply_echoes_request_witness :
  exists h : Handled,
    handle (Some false) false (request "Start" "4711") = Done h /\
    (forall key, key <> "command" ->
                 reply h !! key = request "Start" "4711" !! key) /\
    (reply h !! "command" = request "Start" "4711" !! "command" \/
     reply h !! "command" = Some (JString "FAILURE")).
Proof.
  eexists. split; [reflexivity|].
  apply (X18_reply_echoes_request (Some false) false (request "Start" "4711")).
  reflexivity.
Defined.

(** X19.  A command the server does not know changes nothing and is
    acknowledged all the same: the flag and the sync client are left alone,
    the message is sent back, and the client reports success. *)
Theorem X19_unknown_command_acknowledged
  (sync : option bool) (running : bool) (command pid : string) :
  command <> "Start" ->
  command <> "Stop" ->
  handle sync running (request command pid)
  = Done {| should_run := running;
            reply := request command pid;
            forwarded := [] |}
  /\ SendReceive (request command pid) (Some (request command pid)) = Done true.
Proof.
  intros Hstart Hstop. split; [|apply SendReceive_echo].
  unfold handle. rewrite request_command.
  rewrite !bool_decide_eq_false_2 by congruence. reflexivity.
Qed.

Lemma X19_unknown_command_acknowledged_witness :
  handle (Some true) true (request "Pause" "4711")
  = Done {| should_run := true;
            reply := request "Pause" "4711";
            forwarded := [] |}
  /\ SendReceive (request "Pause" "4711") (Some (request "Pause" "4711"))
     = Done true.
Proof.
  apply (X19_unknown_command_acknowledged (Some true) true "Pause" "4711");
    discriminate.
Defined.

Lemma serve_app (has_sync running : bool)
  (inbox inbox' : list (gmap string json * bool)) :
  Forall (fun m => is_Some (m.1 !! "command")) inbox ->
  serve has_sync running (inbox ++ inbox')
  = serve has_sync (serve has_sync running inbox) inbox'.
Proof.
  intros Hall. revert running.
  induction Hall as [|[message answer] inbox [command Hcommand] _ IH];
    intros running; [reflexivity|].
  simpl in *. unfold handle, item. rewrite Hcommand.
  destruct (bool_decide (command = JString "Start")).
  - destruct has_sync; apply IH.
  - destruct (bool_decide (command = JString "Stop")); apply IH.
Qed.

(** X20.  Whatever well-formed messages came before, after a stop request
    the flag that [ShouldRun] reads is off. *)
Theorem X20_stop_switches_off
  (has_sync running answer : bool) (pid : string)
  (inbox : list (gmap string json * bool)) :
  Forall (fun m => is_Some (m.1 !! "command")) inbox ->
  serve has_sync running (inbox ++ [(request "Stop" pid, answer)]) = false.
Proof.
  intros Hall. rewrite serve_app by exact Hall. simpl.
  rewrite handle_stop. reflexivity.
Qed.

Lemma X20_stop_switches_off_witness :
  serve true false
    ([(request "Start" "4711", true); (request "Pause" "4711", false)]
       ++ [(request "Stop" "4711", false)])
  = false.
Proof.
  apply (X20_stop_switches_off true false false "4711"
           [(request "Start" "4711", true); (request "Pause" "4711", false)]).
  repeat constructor; eexists; reflexivity.
Defined.

(** X21.  A message without a [command] field raises [KeyError] in the
    server thread, which nothing catches: the thread ends, and no later
    message, not even a stop request, changes the flag any more. *)
Theorem X21_message_without_command_ends_thread
  (has_sync running answer : bool) (message : gmap string json)
  (rest : list (gmap string json * bool)) :
  message !! "command" = None ->
  handle (if has_sync then Some answer else None) running message
  = KeyError "command"
  /\ serve has_sync running ((message, answer) :: rest) = running.
Proof.
  intros Hmissing.
  assert (Hraise : handle (if has_sync then Some answer else None) running message
                   = KeyError "command").
  { unfold handle, item. rewrite Hmissing. reflexivity. }
  split; [exact Hraise|]. simpl. rewrite Hraise. reflexivity.
Qed.

Lemma X21_message_without_command_ends_thread_witness :
  let message : gmap string json := <["id" := JString "4711"]> ∅ in
  handle None true message = KeyError "command"
  /\ serve false true [(message, false); (request "Stop" "4711", false)] = true.
Proof.
  intros message.
  apply (X21_message_without_command_ends_thread false true false message
           [(request "Stop" "4711", false)]).
  reflexivity.
Defined.
